(** * data_cleaner.py: column-name sanitizer, type classifier, caster, pipeline

    A shallow embedding of [src/data_cleaner.py] (and of the call made by
    [src/main.py]), with the Python and polars primitives it relies on. *)

From Stdlib Require Import ZArith QArith Lia Ascii String DecimalString Floats Uint63.
From stdpp Require Import base list gmap strings.

Close Scope Q_scope.
Local Open Scope nat_scope.
Set Warnings "-clear-no-such-hyp,-inexact-float".

(** ** Python strings

    A Python [str] is a sequence of Unicode code points. *)

Definition codepoint := N.
Bind Scope N_scope with codepoint.
Definition str := list codepoint.

(** ASCII literals of the source, written as Rocq strings. *)
Definition py (s : string) : str :=
  map N_of_ascii (list_ascii_of_string s).

Definition in_range (lo hi c : N) : bool := ((lo <=? c) && (c <=? hi))%N.

Definition ascii_isdigit (c : codepoint) : bool := in_range 48 57 c.
Definition ascii_isupper (c : codepoint) : bool := in_range 65 90 c.
Definition ascii_islower (c : codepoint) : bool := in_range 97 122 c.
Definition ascii_isalnum (c : codepoint) : bool :=
  ascii_isdigit c || ascii_isupper c || ascii_islower c.
(** [str.isspace] on ASCII: TAB, LF, VT, FF, CR, the separators
    U+001C..U+001F and SPACE. *)
Definition ascii_isspace (c : codepoint) : bool :=
  in_range 9 13 c || in_range 28 32 c.
Definition ascii_lower (c : codepoint) : codepoint :=
  if ascii_isupper c then (c + 32)%N else c.

Definition underscore : codepoint := 95%N.
Definition is_underscore (c : codepoint) : bool := (c =? underscore)%N.

(** The Unicode character database as Python sees it. The tables themselves
    are not part of the repository; the fields are the predicates the source
    reaches through [str.strip], [\w], [str.isdigit], [int], [float] and
    [str.lower], and the laws fix them on the ASCII range. *)
Class Unicode := {
  isspace : codepoint → bool;
  isalnum : codepoint → bool;
  isdigit : codepoint → bool;
  isdecimal : codepoint → bool;
  lower : str → str;
  isspace_ascii : ∀ c, (c < 128)%N → isspace c = ascii_isspace c;
  isalnum_ascii : ∀ c, (c < 128)%N → isalnum c = ascii_isalnum c;
  isdigit_ascii : ∀ c, (c < 128)%N → isdigit c = ascii_isdigit c;
  isdecimal_ascii : ∀ c, (c < 128)%N → isdecimal c = ascii_isdigit c;
  lower_ascii : ∀ s, Forall (λ c, (c < 128)%N) s → lower s = map ascii_lower s
}.

(** What the case mapping and the classes of the database are taken to
    satisfy beyond ASCII: a letter or digit is no whitespace; lowercasing
    twice is lowercasing once; the underscore is its own lowercase whatever
    surrounds it (it is neither cased nor case-ignorable, so it also bounds
    the context of the final-sigma rule), no other character lowercases to
    one, and no character lowercases to nothing. *)
Class UnicodeCase `{Unicode} : Prop := {
  isalnum_not_space : ∀ c, isalnum c = true → isspace c = false;
  lower_idemp : ∀ s, lower (lower s) = lower s;
  lower_underscore : ∀ a b,
    lower (a ++ underscore :: b) = lower a ++ underscore :: lower b;
  lower_no_underscore : ∀ s, underscore ∉ s → underscore ∉ lower s;
  lower_nil : ∀ s, lower s = [] → s = []
}.

(** [s.lstrip(chars)], [s.rstrip(chars)], [s.strip(chars)] for a character
    class [p]. *)
Fixpoint lstrip_by (p : codepoint → bool) (s : str) : str :=
  match s with
  | [] => []
  | c :: t => if p c then lstrip_by p t else s
  end.

Definition rstrip_by (p : codepoint → bool) (s : str) : str :=
  reverse (lstrip_by p (reverse s)).

Definition strip_by (p : codepoint → bool) (s : str) : str :=
  rstrip_by p (lstrip_by p s).

(** [s.replace(old, '')] for a one-character [old]. *)
Definition remove_char (old : codepoint) (s : str) : str :=
  filter (λ c, c ≠ old) s.

(** ** Regular expressions

    Character-class regular expressions with a derivative matcher, used for
    full matches ([^...$], the [int] and [float] literal grammars). *)

Inductive regex :=
  | Void
  | Eps
  | Chr (p : codepoint → bool)
  | Alt (r1 r2 : regex)
  | Cat (r1 r2 : regex)
  | Star (r : regex).

Definition Opt (r : regex) : regex := Alt Eps r.
Definition Plus (r : regex) : regex := Cat r (Star r).
Definition Lit (c : codepoint) : regex := Chr (λ x, (x =? c)%N).
(** A letter in either case. *)
Definition Ci (c : codepoint) : regex :=
  Chr (λ x, (ascii_lower x =? c)%N).
Definition Word (cs : str) : regex := foldr (λ c r, Cat (Ci c) r) Eps cs.

Inductive Matches : regex → str → Prop :=
  | MEps : Matches Eps []
  | MChr p c : p c = true → Matches (Chr p) [c]
  | MAltL r1 r2 s : Matches r1 s → Matches (Alt r1 r2) s
  | MAltR r1 r2 s : Matches r2 s → Matches (Alt r1 r2) s
  | MCat r1 r2 s1 s2 : Matches r1 s1 → Matches r2 s2 → Matches (Cat r1 r2) (s1 ++ s2)
  | MStar0 r : Matches (Star r) []
  | MStarS r s1 s2 : Matches r s1 → Matches (Star r) s2 → Matches (Star r) (s1 ++ s2).

Fixpoint nullable (r : regex) : bool :=
  match r with
  | Void => false
  | Eps => true
  | Chr _ => false
  | Alt r1 r2 => nullable r1 || nullable r2
  | Cat r1 r2 => nullable r1 && nullable r2
  | Star _ => true
  end.

Fixpoint deriv (c : codepoint) (r : regex) : regex :=
  match r with
  | Void => Void
  | Eps => Void
  | Chr p => if p c then Eps else Void
  | Alt r1 r2 => Alt (deriv c r1) (deriv c r2)
  | Cat r1 r2 =>
      if nullable r1 then Alt (Cat (deriv c r1) r2) (deriv c r2)
      else Cat (deriv c r1) r2
  | Star r1 => Cat (deriv c r1) (Star r1)
  end.

Fixpoint re_match (r : regex) (s : str) : bool :=
  match s with
  | [] => nullable r
  | c :: t => re_match (deriv c r) t
  end.

(** ** re.sub

    [re.sub(P, "_", s)] for the two patterns of the source. *)

(** Emission of a pending run of pattern characters: a run of at least [min]
    characters is one match of the pattern and is replaced by ["_"]; a
    shorter run is no match and is copied. *)
Definition emit_run (min : nat) (run : str) : str :=
  if decide (min ≤ length run) then [underscore] else run.

(** [re.sub(P, "_", s)] for a pattern [P] that matches the runs of at least
    [min] characters of the class [p], greedily: [[^\w]+] is the class of
    non-word characters with [min = 1], [__+] the class ["_"] with
    [min = 2]. [run] is the run read so far. *)
Fixpoint re_sub_run (p : codepoint → bool) (min : nat) (run s : str) : str :=
  match s with
  | [] => emit_run min run
  | c :: t =>
      if p c then re_sub_run p min (run ++ [c]) t
      else emit_run min run ++ c :: re_sub_run p min [] t
  end.

(** ** Python literals: int() and float()

    The grammars of the language reference for the string arguments of
    [int] (base 10) and [float], over the decimal digits of the Unicode
    database; both builtins ignore surrounding whitespace. *)

Class Python := {
  py_unicode :: Unicode;
  (** [sys.get_int_max_str_digits()]; 0 disables the limit. *)
  int_max_str_digits : nat
}.

Inductive float_kind := FDecimal | FInfinity | FNaN.

Section Builtins.
Context `{Python}.

(** [\w] of Python 3 on [str]: alphanumeric in the Unicode sense, or the
    underscore. *)
Definition isword (c : codepoint) : bool := isalnum c || is_underscore c.

(** [s.strip()] *)
Definition strip (s : str) : str := strip_by isspace s.

(** [s.isdigit()] *)
Definition str_isdigit (s : str) : bool :=
  match s with [] => false | _ => forallb isdigit s end.

Definition sign_re : regex := Alt (Lit 43) (Lit 45).
Definition digit_re : regex := Chr isdecimal.
Definition digitpart_re : regex :=
  Cat digit_re (Star (Cat (Opt (Lit 95)) digit_re)).
(** What follows the first digit of a digit part. *)
Definition digit_tail_re : regex := Star (Cat (Opt (Lit 95)) digit_re).
Definition number_re : regex :=
  Alt (Cat (Opt digitpart_re) (Cat (Lit 46) digitpart_re))
      (Cat digitpart_re (Opt (Lit 46))).
Definition exponent_re : regex :=
  Cat (Ci 101) (Cat (Opt sign_re) digitpart_re).
Definition floatnumber_re : regex := Cat number_re (Opt exponent_re).
Definition infinity_re : regex := Alt (Word (py "infinity")) (Word (py "inf")).
Definition nan_re : regex := Word (py "nan").
Definition integer_re : regex := Cat (Opt sign_re) digitpart_re.

(** The whitespace [float] and [int] skip around their argument. Both turn
    the whitespace characters above U+007E into spaces and then skip the
    characters of the C class [isspace] (TAB, LF, VT, FF, CR and SPACE) at
    either end: of the class of [str.isspace], all but the separators
    U+001C..U+001F. *)
Definition isspace_number (c : codepoint) : bool :=
  isspace c && negb (in_range 28 31 c).

(** [float(s)], by the production [floatvalue] of the language reference
    (an optional sign, then [floatnumber], [infinity] or [nan]); [None]
    stands for the ValueError. A decimal literal is rounded to the nearest
    double (a literal too large for a double gives an infinity, not an
    error). *)
Definition py_float (s : str) : option float_kind :=
  let s := strip_by isspace_number s in
  if re_match (Cat (Opt sign_re) floatnumber_re) s then Some FDecimal
  else if re_match (Cat (Opt sign_re) infinity_re) s then Some FInfinity
  else if re_match (Cat (Opt sign_re) nan_re) s then Some FNaN
  else None.

(** [int(s)] returns without raising. *)
Definition int_accepts (s : str) : bool :=
  let s := strip_by isspace_number s in
  re_match integer_re s
  && (bool_decide (int_max_str_digits = 0)
      || bool_decide (length (filter (λ c, isdecimal c = true) s) ≤ int_max_str_digits)).

(** ** sanitize_column_name *)

Definition sanitize_column_name (name : str) : str :=
  let name := strip name in
  let name := re_sub_run (λ c, negb (isword c)) 1 [] name in
  let name := re_sub_run is_underscore 2 [] name in
  let name := lower (strip_by is_underscore name) in
  if decide (name = []) then py "col" else name.

End Builtins.

(** ** infer_column_types_from_sample *)

(** The four results ['int'], ['float'], ['date'], ['string']. *)
Inductive col_type := TInt | TFloat | TDate | TString.

Global Instance col_type_eq_dec : EqDecision col_type.
Proof. solve_decision. Defined.

Definition SAMPLE_ROWS : nat := 1000.
Definition NUMERIC_THRESHOLD : Q := 9 # 10.
Definition DATE_THRESHOLD : Q := 3 # 4.

(** The three counters of the loop, and the strings handed to
    [date_parser.parse], in call order. *)
Record tally := Tally {
  int_ok : nat;
  float_ok : nat;
  date_ok : nat;
  date_calls : list str
}.

Definition tally0 : tally := Tally 0 0 0 [].

(** [a / b] of two Python ints, for [b > 0]. Python rounds the quotient to
    a double and compares it with the double nearest to the threshold;
    rounding is monotone and, for totals below 2^49, no quotient other than
    the threshold itself rounds to the threshold's double, so the comparison
    is the exact one (which [decide_type_binary64_exact] below checks by
    evaluation for the totals up to 1200). *)
Definition truediv (a b : nat) : Q := Z.of_nat a # Pos.of_nat b.

(** The [if]/[elif] chain under the comment [# Decide]. *)
Definition decide_type (t : tally) (total : nat) : col_type :=
  if (0 <? total) && Qle_bool NUMERIC_THRESHOLD (truediv (int_ok t) total)
  then TInt
  else if (0 <? total) && Qle_bool NUMERIC_THRESHOLD (truediv (float_ok t) total)
  then TFloat
  else if (0 <? total) && Qle_bool DATE_THRESHOLD (truediv (date_ok t) total)
  then TDate
  else TString.

(** The same chain in binary64, as the interpreter evaluates it: the two
    thresholds are the doubles nearest to 0.9 and 0.75, and [/] is the
    correctly rounded quotient. *)
Definition double_of_Z (n : Z) : float := PrimFloat.of_uint63 (Uint63.of_Z n).

Definition double_ge (threshold : float) (k total : Z) : bool :=
  PrimFloat.leb threshold (PrimFloat.div (double_of_Z k) (double_of_Z total)).

Definition decide_type_binary64 (t : tally) (total : nat) : col_type :=
  let ge thr k := double_ge thr (Z.of_nat k) (Z.of_nat total) in
  if (0 <? total) && ge 0.9%float (int_ok t) then TInt
  else if (0 <? total) && ge 0.9%float (float_ok t) then TFloat
  else if (0 <? total) && ge 0.75%float (date_ok t) then TDate
  else TString.

(** The integers [i], [i + 1], ..., [fuel] of them. *)
Fixpoint upto (fuel : nat) (i : Z) : list Z :=
  match fuel with
  | 0 => []
  | S f => i :: upto f (i + 1)%Z
  end.

(** The two comparisons agree with the exact ones for every total from 1
    to [n] and every count from 0 to the total. *)
Definition doubles_agree (n : nat) : bool :=
  forallb (λ total, forallb (λ k,
      Bool.eqb (double_ge 0.9%float k total) (9 * total <=? 10 * k)%Z
      && Bool.eqb (double_ge 0.75%float k total) (3 * total <=? 4 * k)%Z)
    (upto (S (Z.to_nat total)) 0%Z)) (upto n 1%Z).

Section Classifier.
Context `{Python}.
(** [date_parser.parse(s, fuzzy=False)] of dateutil returns without
    raising. *)
Variable date_parser_parse : str → bool.

(** The first [try] block reaches its [continue]: the guard holds and
    [int(s)] does not raise. *)
Definition try_int (s : str) : bool :=
  negb (bool_decide (46%N ∈ s))
  && str_isdigit (lstrip_by (λ c, (c =? 43)%N || (c =? 45)%N) s)
  && int_accepts s.

(** The second [try] block: [float(s.replace(',', ''))] does not raise. *)
Definition try_float (s : str) : bool :=
  bool_decide (is_Some (py_float (remove_char 44 s))).

(** One iteration of [for v in non_null[:SAMPLE_ROWS]]. *)
Definition tally_value (t : tally) (v : str) : tally :=
  let s := strip v in
  if try_int s then
    Tally (S (int_ok t)) (S (float_ok t)) (date_ok t) (date_calls t)
  else
    let float_ok' := if try_float s then S (float_ok t) else float_ok t in
    let date_ok' := if date_parser_parse s then S (date_ok t) else date_ok t in
    Tally (int_ok t) float_ok' date_ok' (date_calls t ++ [s]).

Definition tally_loop (vs : list str) : tally := foldl tally_value tally0 vs.

(** [[v for v in ser if v is not None and str(v).strip() != '']]; a cell is
    [None] or the text [str(v)] of its value. *)
Definition non_null (ser : list (option str)) : list str :=
  omap (λ v, v ≫= λ x, if decide (strip x = []) then None else Some x) ser.

(** The body of [for col in df_sample.columns]. *)
Definition infer_column (ser : list (option str)) : col_type :=
  let vs := non_null ser in
  match vs with
  | [] => TString
  | _ =>
      let total := length vs in
      decide_type (tally_loop (take SAMPLE_ROWS vs)) total
  end.

(** A DataFrame is the list of its columns, each with its name. *)
Definition infer_column_types_from_sample
    (df_sample : list (str * list (option str))) : gmap str col_type :=
  foldl (λ result col, <[col.1 := infer_column col.2]> result) ∅ df_sample.

End Classifier.

(** ** polars

    The engine behind [pl.scan_csv], the [.str] expressions, [cast],
    [unique] and [write_csv]. *)

(** The exceptions a run can end with. *)
Inductive exn :=
  | FileNotFoundError
  | ComputeError
  | DuplicateError
  | SchemaError
  | OSError.

Definition result (A : Type) : Type := exn + A.

Definition bind {A B} (r : result A) (k : A → result B) : result B :=
  match r with inl e => inl e | inr a => k a end.

Fixpoint collect {A} (rs : list (result A)) : result (list A) :=
  match rs with
  | [] => inr []
  | r :: rs' => bind r (λ a, bind (collect rs') (λ l, inr (a :: l)))
  end.

(** A cell after the cast, for float values [F] and datetime values [D]. *)
Inductive cell (F D : Type) :=
  | CNull
  | CInt (z : Z)
  | CFloat (x : F)
  | CDatetime (d : D)
  | CStr (s : str).
Arguments CNull {F D}.
Arguments CInt {F D} z.
Arguments CFloat {F D} x.
Arguments CDatetime {F D} d.
Arguments CStr {F D} s.

Global Instance cell_eq_dec `{EqDecision F, EqDecision D} : EqDecision (cell F D).
Proof. solve_decision. Defined.

(** A cell that holds a NaN. *)
Definition cell_nan {F D} (is_nan : F → bool) (c : cell F D) : bool :=
  match c with CFloat x => is_nan x | _ => false end.

(** The dtypes [pl.scan_csv] gives a column, dates not being parsed
    ([try_parse_dates=False]). *)
Inductive dtype := Utf8 | Int64 | Float64 | Boolean.

Global Instance dtype_eq_dec : EqDecision dtype.
Proof. solve_decision. Defined.

(** A column as it is read: its dtype and its cells. A cell is null or the
    text [str(v)] of its value [v] in [to_list()], which in a Utf8 column
    is the string itself; the program looks at the values of a column of
    another dtype through [str(v)] only. *)
Record series := Series {
  series_dtype : dtype;
  series_cells : list (option str)
}.

(** A frame is the list of its columns, each with its name. *)
Definition frame (A : Type) : Type := list (str * A).

Definition columns {A} (df : frame A) : list str := map fst df.

(** [df[col].to_list()] of every column, as texts. *)
Definition to_lists (df : frame series) : frame (list (option str)) :=
  map (λ c, (c.1, series_cells c.2)) df.

(** [lf.limit(n)] *)
Definition limit (n : nat) (df : frame series) : frame series :=
  map (λ c, (c.1, Series (series_dtype c.2) (take n (series_cells c.2)))) df.

(** The rows of a list of columns. *)
Fixpoint transpose {A} (cols : list (list A)) : list (list A) :=
  match cols with
  | [] => []
  | [c] => map (λ x, [x]) c
  | c :: cs => zip_with cons c (transpose cs)
  end.

(** The distinct elements, each at its first occurrence. *)
Fixpoint dedup_first `{EqDecision A} (l : list A) : list A :=
  match l with
  | [] => []
  | x :: t => x :: filter (λ y, y ≠ x) (dedup_first t)
  end.

Class Polars := {
  f64 : Type;
  datetime : Type;
  datetime_format : Type;
  f64_eq_dec :: EqDecision f64;
  datetime_eq_dec :: EqDecision datetime;
  f64_is_nan : f64 → bool;
  (** The cast of one Utf8 value to Int64 and to Float64. *)
  parse_i64 : str → option Z;
  parse_f64 : str → option f64;
  (** [str.strptime(pl.Datetime, fmt=None)]: the format is inferred from the
      data of the column, then every value is parsed with it. *)
  infer_datetime_format : list (option str) → option datetime_format;
  parse_datetime : datetime_format → str → option datetime;
  (** [str.strip()] *)
  utf8_strip : str → str;
  (** [unique()] with its defaults ([subset=None], [maintain_order=False]):
      the distinct rows, in an order of the engine's choosing. *)
  unique : list (list (cell f64 datetime)) → list (list (cell f64 datetime));
  (** The CSV reader, with the dtype it infers for every column, and the
      writer. *)
  read_csv : list N → option (frame series);
  to_csv : list str → list (list (cell f64 datetime)) → list N;
  (** What is fixed of them: a string cast to Int64 is made of digits and
      signs; on rows that hold no NaN, [unique] returns every row of its
      input once, two rows being the same row when all their cells are
      equal (nulls included). What it returns for rows that hold a NaN is
      left open. *)
  parse_i64_literal : ∀ s z, parse_i64 s = Some z →
    s ≠ [] ∧ Forall (λ c, ascii_isdigit c || (c =? 43)%N || (c =? 45)%N = true) s;
  unique_NoDup : ∀ rows,
    Forall (Forall (λ c, cell_nan f64_is_nan c = false)) rows → NoDup (unique rows);
  unique_elem_of : ∀ rows r,
    Forall (Forall (λ c, cell_nan f64_is_nan c = false)) rows →
    r ∈ unique rows ↔ r ∈ rows
}.

Section Caster.
Context `{Polars}.

Definition pcell : Type := cell f64 datetime.

(** The rows that hold no NaN. *)
Definition nan_free (rows : list (list pcell)) : Prop :=
  Forall (Forall (λ c, cell_nan f64_is_nan c = false)) rows.

(** [pl.col(c).str]: the string functions are those of a Utf8 column, and
    an expression that goes through them raises on a column of another
    dtype. *)
Definition str_namespace (s : series) : result (list (option str)) :=
  match series_dtype s with
  | Utf8 => inr (series_cells s)
  | _ => inl SchemaError
  end.

(** [cast(dtype, strict)] of a Utf8 column: a value the parser rejects is
    null when [strict] is false and raises when it is true. *)
Definition cast_utf8 {A} (parse : str → option A) (inj : A → pcell)
    (strict : bool) (col : list (option str)) : result (list pcell) :=
  if strict && existsb (λ c, bool_decide (is_Some c ∧ c ≫= parse = None)) col
  then inl ComputeError
  else inr (map (λ c, from_option inj CNull (c ≫= parse)) col).

(** [str.replace_all(',', '')] *)
Definition replace_all_commas (col : list (option str)) : list (option str) :=
  map (fmap (remove_char 44)) col.

(** [str.strptime(pl.Datetime, fmt=None, strict)] *)
Definition strptime_datetime (strict : bool) (col : list (option str))
    : result (list pcell) :=
  match infer_datetime_format col with
  | None => inl ComputeError
  | Some fmt => cast_utf8 (parse_datetime fmt) CDatetime strict col
  end.

(** What the expression [clean_csv] builds for a column of inferred type
    [t] does to the strings of the column, after [.str]. *)
Definition cast_expr (t : col_type) (col : list (option str)) : result (list pcell) :=
  match t with
  | TInt => cast_utf8 parse_i64 CInt false (replace_all_commas col)
  | TFloat => cast_utf8 parse_f64 CFloat false (replace_all_commas col)
  | TDate => strptime_datetime false col
  | TString => inr (map (λ c, from_option (λ s, CStr (utf8_strip s)) CNull c) col)
  end.

(** The expression evaluated on a column: each of the four starts with
    [pl.col(col).str]. *)
Definition cast_series (t : col_type) (s : series) : result (list pcell) :=
  bind (str_namespace s) (cast_expr t).

(** The cast of one cell of a column of type [t]; [fmt] is the datetime
    format of the column, if it is a date column with one. *)
Definition cast_cell (t : col_type) (fmt : option datetime_format)
    (c : option str) : pcell :=
  match t with
  | TInt => from_option CInt CNull (c ≫= λ s, parse_i64 (remove_char 44 s))
  | TFloat => from_option CFloat CNull (c ≫= λ s, parse_f64 (remove_char 44 s))
  | TDate => from_option CDatetime CNull (fmt ≫= λ f, c ≫= parse_datetime f)
  | TString => from_option (λ s, CStr (utf8_strip s)) CNull c
  end.



End Caster.

(** ** clean_csv *)

(** Paths are strings; a file is its bytes. *)
Definition filesystem : Type := gmap str (list N).

(** What can go wrong in a write of the engine: the file cannot be opened,
    or the write stops after [written] bytes, a failure that the engine
    reports to the caller or not. *)
Inductive io_fault :=
  | NoFault
  | OpenFault
  | WriteFault (written : nat) (reported : bool).

(** [df.write_csv(path)]: the file at [path] is opened for writing and
    filled. A file that cannot be opened raises and is left as it was; a
    write that stops leaves what was written so far, and the engine raises
    the failure or returns as after a complete write. *)
Definition write_csv (fs : filesystem) (path : str) (data : list N)
    (fault : io_fault) : result () * filesystem :=
  match fault with
  | NoFault => (inr (), <[path := data]> fs)
  | OpenFault => (inl OSError, fs)
  | WriteFault n reported =>
      (if reported then inl OSError else inr (), <[path := take n data]> fs)
  end.

(** What can go wrong in [open] and [f.write] of Python: the file cannot be
    opened, or the write stops after [written] bytes; both raise. *)
Inductive py_fault :=
  | OpenFailed
  | WriteFailed (written : nat).

Section Pipeline.
Context `{Python} `{Polars}.
Variable date_parser_parse : str → bool.

(** [{orig: new for orig, new in zip(orig_cols, sanitized_names)}] *)
Definition make_rename_map (orig_cols sanitized_names : list str) : gmap str str :=
  foldl (λ m kv, <[kv.1 := kv.2]> m) ∅ (zip orig_cols sanitized_names).

(** [df.rename(mapping)]; two columns of one name raise. *)
Definition rename {A : Type} (mapping : gmap str str) (df : frame A) : result (frame A) :=
  let df' := map (λ c, (default c.1 (mapping !! c.1), c.2)) df in
  if bool_decide (NoDup (columns df')) then inr df' else inl DuplicateError.

(** The frame [clean_csv] collects into [df_out]: header and rows. *)
Definition clean_frame (sample_rows : nat) (lf : frame series)
    : result (list str * list (list pcell)) :=
  let sample_df := limit sample_rows lf in
  let orig_cols := columns sample_df in
  let sanitized_names := map sanitize_column_name orig_cols in
  let rename_map := make_rename_map orig_cols sanitized_names in
  bind (rename rename_map lf) (λ lf,
  bind (rename rename_map sample_df) (λ sample_df,
  let inferred :=
    infer_column_types_from_sample date_parser_parse (to_lists sample_df) in
  let exprs := map (λ c, cast_series (default TString (inferred !! c.1)) c.2) lf in
  bind (collect exprs) (λ cols,
  inr (columns lf, unique (transpose cols))))).

Definition clean_csv (fs : filesystem) (input_path output_path : str)
    (sample_rows : nat) (fault : io_fault) : result () * filesystem :=
  match fs !! input_path with
  | None => (inl FileNotFoundError, fs)
  | Some bytes =>
      match read_csv bytes with
      | None => (inl ComputeError, fs)
      | Some lf =>
          match clean_frame sample_rows lf with
          | inl e => (inl e, fs)
          | inr (header, rows) => write_csv fs output_path (to_csv header rows) fault
          end
      end
  end.

(** The type the run infers for a column: that of the column's own first
    [sample_rows] cells. *)
Definition sample_type (sample_rows : nat) (s : series) : col_type :=
  infer_column date_parser_parse (take sample_rows (series_cells s)).

(** The table the run casts: every column cell by cell, by the type
    inferred for the column. *)
Definition cast_table (sample_rows : nat) (lf : frame series) : list (list pcell) :=
  map (λ c, map (cast_cell (sample_type sample_rows c.2)
                   (infer_datetime_format (series_cells c.2)))
                (series_cells c.2)) lf.

(** What makes the cast of a column return: the column is a column of
    strings, and has a datetime format if it is inferred 'date'. *)
Definition castable (sample_rows : nat) (s : series) : Prop :=
  series_dtype s = Utf8
  ∧ (sample_type sample_rows s = TDate →
     is_Some (infer_datetime_format (series_cells s))).

(** ** main.py: upload *)

(** [Path / name], for a relative [name]. *)
Definition path_join (dir name : str) : str := dir ++ py "/" ++ name.

(** [s.endswith(suffix)] *)
Definition endswith (s suffix : str) : bool :=
  bool_decide (drop (length s - length suffix) s = suffix).

(** [tmpdir] is [tempfile.gettempdir()]. *)
Definition UPLOAD_DIR (tmpdir : str) : str := path_join tmpdir (py "polars_uploads").
Definition CLEAN_DIR (tmpdir : str) : str := path_join tmpdir (py "polars_cleaned").

(** What the client gets: an HTTPException the handler raises, the file it
    returns, or the answer of the framework to another exception that
    leaves the handler (500). *)
Inductive response :=
  | HTTPException (status_code : nat)
  | FileResponse (path : str)
  | Unhandled (e : exn).

(** The handler of [POST /upload]; [candidate] is the name drawn from
    [tempfile._get_candidate_names()]. [upload_fault] is the fault of the
    write of the upload, if it has one: its exception is raised outside
    the [try] and leaves the handler. *)
Definition upload (fs : filesystem) (tmpdir candidate filename : str)
    (contents : list N) (upload_fault : option py_fault) (fault : io_fault)
    : response * filesystem :=
  if negb (endswith (lower filename) (py ".csv") || endswith (lower filename) (py ".txt"))
  then (HTTPException 400, fs)
  else
    let tmp_in := path_join (UPLOAD_DIR tmpdir) (candidate ++ py "_" ++ filename) in
    match upload_fault with
    | Some OpenFailed => (Unhandled OSError, fs)
    | Some (WriteFailed n) => (Unhandled OSError, <[tmp_in := take n contents]> fs)
    | None =>
        let fs := <[tmp_in := contents]> fs in
        let out_name := py "cleaned_" ++ filename in
        let tmp_out := path_join (CLEAN_DIR tmpdir) out_name in
        match clean_csv fs tmp_in tmp_out SAMPLE_ROWS fault with
        | (inl _, fs) => (HTTPException 500, fs)
        | (inr _, fs) => (FileResponse tmp_out, fs)
        end
    end.

End Pipeline.

(** [\w] on the ASCII range. *)
Definition ascii_isword (c : codepoint) : bool :=
  ascii_isalnum c || is_underscore c.

(** The identifier class [[a-z0-9_]] and the pattern [^[a-z0-9_]+$]. *)
Definition ident_char (c : codepoint) : bool :=
  ascii_islower c || ascii_isdigit c || is_underscore c.
Definition ident_re : regex := Plus (Chr ident_char).

(** No two adjacent underscores. *)
Definition no_repeated_underscore (s : str) : Prop :=
  ∀ l1 l2, s ≠ l1 ++ [underscore; underscore] ++ l2.

(** The ColumnName invariant of the specification. *)
Record column_name_ok (s : str) : Prop := {
  cn_nonempty : s ≠ [];
  cn_chars : Forall (λ c, ident_char c = true) s;
  cn_head : head s ≠ Some underscore;
  cn_last : last s ≠ Some underscore;
  cn_norepeat : no_repeated_underscore s
}.

(** The strings [float] accepts, in the words of the language reference.

    A digit part is made of decimal digits, which single underscores may
    group: it starts and ends with a digit and has no two adjacent
    underscores. *)
Definition digit_part `{Python} (s : str) : Prop :=
  Forall (λ c, isdecimal c = true ∨ c = underscore) s
  ∧ (∃ d, head s = Some d ∧ isdecimal d = true)
  ∧ (∃ d, last s = Some d ∧ isdecimal d = true)
  ∧ no_repeated_underscore s.

(** An exponent: [e] or [E], an optional sign and a digit part. *)
Definition exponent_part `{Python} (s : str) : Prop :=
  ∃ e sgn ds, s = e :: sgn ++ ds
    ∧ (e = 101%N ∨ e = 69%N)
    ∧ (sgn = [] ∨ sgn = py "+" ∨ sgn = py "-")
    ∧ digit_part ds.

(** A decimal number: an integer part and a fraction, of which one may be
    missing (digits with an optional point after them, or an optional digit
    part, a point and a digit part), then an optional exponent. *)
Definition decimal_number `{Python} (s : str) : Prop :=
  ∃ ip fp ex, s = ip ++ fp ++ ex
    ∧ ((digit_part ip ∧ (fp = [] ∨ fp = py "."))
       ∨ ((ip = [] ∨ digit_part ip) ∧ ∃ ds, fp = py "." ++ ds ∧ digit_part ds))
    ∧ (ex = [] ∨ exponent_part ex).

(** A float literal: an optional sign, then a decimal number or one of the
    words inf, infinity, nan in any letter case. *)
Definition float_literal `{Python} (s : str) : Prop :=
  ∃ sgn body, s = sgn ++ body
    ∧ (sgn = [] ∨ sgn = py "+" ∨ sgn = py "-")
    ∧ (decimal_number body
       ∨ map ascii_lower body = py "infinity"
       ∨ map ascii_lower body = py "inf"
       ∨ map ascii_lower body = py "nan").

(** The sign characters [+] and [-]. *)
Definition is_sign (c : codepoint) : bool := (c =? 43)%N || (c =? 45)%N.

(** The ASCII strings [int] accepts from the integer check: one optional
    sign, then digits, within the interpreter's limit on their number. *)
Definition signed_digits `{Python} (s : str) : Prop :=
  ∃ sgn ds, s = sgn ++ ds
    ∧ (sgn = [] ∨ sgn = py "+" ∨ sgn = py "-")
    ∧ ds ≠ []
    ∧ Forall (λ c, ascii_isdigit c = true) ds
    ∧ (int_max_str_digits = 0 ∨ length ds ≤ int_max_str_digits).

(** ** A table of the Unicode database

    The entries of the database for U+0000..U+00FF, U+0130 and the fullwidth
    digits, and all of its whitespace; other code points are left
    unclassified (not alphanumeric, their own lowercase), so the table
    stands for the database on strings of the tabulated code points only. *)

Definition ucd_isspace (c : codepoint) : bool :=
  if (c <? 128)%N then ascii_isspace c
  else (c =? 133)%N || (c =? 160)%N || (c =? 5760)%N || in_range 8192 8202 c
       || (c =? 8232)%N || (c =? 8233)%N || (c =? 8239)%N || (c =? 8287)%N
       || (c =? 12288)%N.

Definition ucd_isdecimal (c : codepoint) : bool :=
  if (c <? 128)%N then ascii_isdigit c else in_range 65296 65305 c.

Definition ucd_isdigit (c : codepoint) : bool :=
  if (c <? 128)%N then ascii_isdigit c
  else (c =? 178)%N || (c =? 179)%N || (c =? 185)%N || in_range 65296 65305 c.

Definition ucd_isalnum (c : codepoint) : bool :=
  if (c <? 128)%N then ascii_isalnum c
  else (c =? 170)%N || (c =? 178)%N || (c =? 179)%N || (c =? 181)%N
       || (c =? 185)%N || (c =? 186)%N || in_range 188 190 c
       || in_range 192 214 c || in_range 216 246 c || in_range 248 255 c
       || (c =? 304)%N || in_range 65296 65305 c.

(** U+0130 lowercases to two code points, U+0069 U+0307. *)
Definition ucd_lower_char (c : codepoint) : str :=
  if (c <? 128)%N then [ascii_lower c]
  else if in_range 192 214 c || in_range 216 222 c then [(c + 32)%N]
  else if (c =? 304)%N then [105%N; 775%N]
  else [c].

Definition ucd_lower (s : str) : str := s ≫= ucd_lower_char.

Lemma ucd_isspace_ascii c : (c < 128)%N → ucd_isspace c = ascii_isspace c.
Proof. intros Hc. unfold ucd_isspace. by apply N.ltb_lt in Hc as ->. Qed.

Lemma ucd_isalnum_ascii c : (c < 128)%N → ucd_isalnum c = ascii_isalnum c.
Proof. intros Hc. unfold ucd_isalnum. by apply N.ltb_lt in Hc as ->. Qed.

Lemma ucd_isdigit_ascii c : (c < 128)%N → ucd_isdigit c = ascii_isdigit c.
Proof. intros Hc. unfold ucd_isdigit. by apply N.ltb_lt in Hc as ->. Qed.

Lemma ucd_isdecimal_ascii c : (c < 128)%N → ucd_isdecimal c = ascii_isdigit c.
Proof. intros Hc. unfold ucd_isdecimal. by apply N.ltb_lt in Hc as ->. Qed.

Lemma ucd_lower_ascii s :
  Forall (λ c, (c < 128)%N) s → ucd_lower s = map ascii_lower s.
Proof.
  induction 1 as [|c s Hc _ IH]; [done|].
  unfold ucd_lower in *. cbn. rewrite IH. unfold ucd_lower_char.
  by apply N.ltb_lt in Hc as ->.
Qed.

Definition ucd : Unicode := {|
  isspace := ucd_isspace;
  isalnum := ucd_isalnum;
  isdigit := ucd_isdigit;
  isdecimal := ucd_isdecimal;
  lower := ucd_lower;
  isspace_ascii := ucd_isspace_ascii;
  isalnum_ascii := ucd_isalnum_ascii;
  isdigit_ascii := ucd_isdigit_ascii;
  isdecimal_ascii := ucd_isdecimal_ascii;
  lower_ascii := ucd_lower_ascii
|}.

(** CPython with its default limit of 4300 digits. *)
Definition cpython : Python := {| py_unicode := ucd; int_max_str_digits := 4300 |}.

(** ** A small engine

    One engine of the interface above, for running the pipeline on
    examples: decimal integers and decimals, datetimes of the families
    year-month-day ([%Y-%m-%d], with an optional [%H:%M:%S]) and
    day-month-year ([%d/%m/%Y], likewise), unquoted CSV. The family of a
    column is that of its first value that belongs to one. *)

Definition digits_value (s : str) : option Z :=
  match s with
  | [] => None
  | _ => foldl (λ acc c, acc ≫= λ a,
           if ascii_isdigit c then Some (10 * a + (Z.of_N c - 48))%Z else None)
         (Some 0%Z) s
  end.

Definition split_sign (s : str) : bool * str :=
  match s with
  | c :: t => if (c =? 45)%N then (true, t) else if (c =? 43)%N then (false, t) else (false, s)
  | [] => (false, [])
  end.

Definition eng_parse_i64 (s : str) : option Z :=
  let '(neg, body) := split_sign s in
  digits_value body ≫= λ m,
  let z := (if neg then - m else m)%Z in
  if bool_decide (- 2 ^ 63 ≤ z < 2 ^ 63)%Z then Some z else None.

Fixpoint split_on (sep : codepoint) (cur s : str) : list str :=
  match s with
  | [] => [cur]
  | c :: t => if (c =? sep)%N then cur :: split_on sep [] t else split_on sep (cur ++ [c]) t
  end.

(** A decimal [digits[.digits]] with an optional sign, kept as its text
    without redundant zeros. *)
Definition eng_parse_f64 (s : str) : option str :=
  let '(neg, body) := split_sign s in
  let sign := if neg then py "-" else [] in
  let zero c := (c =? 48)%N in
  let norm_int i := match lstrip_by zero i with [] => py "0" | i' => i' end in
  let norm_frac f := match rstrip_by zero f with [] => py "0" | f' => f' end in
  match split_on 46 [] body with
  | [i] => digits_value i ≫= λ _, Some (sign ++ norm_int i ++ py ".0")
  | [i; f] => digits_value i ≫= λ _, digits_value f ≫= λ _,
      Some (sign ++ norm_int i ++ py "." ++ norm_frac f)
  | _ => None
  end.

Inductive eng_family := YearMonthDay | DayMonthYear.

Definition eng_datetime : Type := (Z * Z * Z) * (Z * Z * Z).

Definition number_of_width (w : nat) (s : str) : option Z :=
  if bool_decide (length s = w) then digits_value s else None.

Definition eng_parse_time (s : str) : option (Z * Z * Z) :=
  match split_on 58 [] s with
  | [h; m; sec] =>
      number_of_width 2 h ≫= λ h, number_of_width 2 m ≫= λ m,
      number_of_width 2 sec ≫= λ sec,
      if bool_decide (h < 24 ∧ m < 60 ∧ sec < 60)%Z then Some (h, m, sec) else None
  | _ => None
  end.

Definition eng_parse_date (fam : eng_family) (s : str) : option (Z * Z * Z) :=
  let fields :=
    match fam with
    | YearMonthDay =>
        match split_on 45 [] s with
        | [y; m; d] => Some (y, m, d)
        | _ => None
        end
    | DayMonthYear =>
        match split_on 47 [] s with
        | [d; m; y] => Some (y, m, d)
        | _ => None
        end
    end in
  fields ≫= λ '(y, m, d),
  number_of_width 4 y ≫= λ y, number_of_width 2 m ≫= λ m,
  number_of_width 2 d ≫= λ d,
  if bool_decide (1 ≤ m ≤ 12 ∧ 1 ≤ d ≤ 31)%Z then Some (y, m, d) else None.

Definition eng_parse_datetime (fam : eng_family) (s : str) : option eng_datetime :=
  match split_on 32 [] s with
  | [d] => eng_parse_date fam d ≫= λ d, Some (d, (0, 0, 0)%Z)
  | [d; t] => eng_parse_date fam d ≫= λ d, eng_parse_time t ≫= λ t, Some (d, t)
  | _ => None
  end.

Definition eng_family_of (s : str) : option eng_family :=
  if bool_decide (is_Some (eng_parse_datetime YearMonthDay s)) then Some YearMonthDay
  else if bool_decide (is_Some (eng_parse_datetime DayMonthYear s)) then Some DayMonthYear
  else None.

Definition eng_infer_format (col : list (option str)) : option eng_family :=
  head (omap (λ c, c ≫= eng_family_of) col).

(** A date parser for the examples, accepting the datetimes of the two
    families. *)
Definition example_date_parse (s : str) : bool :=
  bool_decide (is_Some (eng_family_of s)).

Definition eng_cell : Type := cell str eng_datetime.

Definition join (sep : str) (parts : list str) : str :=
  match parts with
  | [] => []
  | x :: rest => x ++ rest ≫= λ y, sep ++ y
  end.

Definition show_Z (z : Z) : str := py (NilZero.string_of_int (Z.to_int z)).

Definition show_padded (w : nat) (z : Z) : str :=
  let d := show_Z z in replicate (w - length d) 48%N ++ d.

Definition eng_show_cell (c : eng_cell) : str :=
  match c with
  | CNull => []
  | CInt z => show_Z z
  | CFloat x => x
  | CDatetime (y, m, d, (h, mi, sec)) =>
      show_padded 4 y ++ py "-" ++ show_padded 2 m ++ py "-" ++ show_padded 2 d
      ++ py "T" ++ show_padded 2 h ++ py ":" ++ show_padded 2 mi ++ py ":"
      ++ show_padded 2 sec
  | CStr s => s
  end.

Definition eng_to_csv (header : list str) (rows : list (list eng_cell)) : list N :=
  (header :: map (map eng_show_cell) rows) ≫= λ r, join (py ",") r ++ [10%N].

(** The dtype the reader gives a column: Int64, Float64 or Boolean when
    every cell that is not empty reads as one, Utf8 otherwise and for a
    column of empty cells (the engine looks at all the rows). *)
Definition eng_infer_dtype (cells : list (option str)) : dtype :=
  match omap id cells with
  | [] => Utf8
  | vals =>
      if forallb (λ s, bool_decide (is_Some (eng_parse_i64 s))) vals then Int64
      else if forallb (λ s, bool_decide (is_Some (eng_parse_f64 s))) vals then Float64
      else if forallb (λ s, bool_decide (s = py "true" ∨ s = py "false")) vals
      then Boolean
      else Utf8
  end.

(** The text [str(v)] of the value read from the field [s]. *)
Definition eng_text (dt : dtype) (s : str) : str :=
  match dt with
  | Utf8 => s
  | Int64 => from_option show_Z s (eng_parse_i64 s)
  | Float64 => default s (eng_parse_f64 s)
  | Boolean => if bool_decide (s = py "true") then py "True" else py "False"
  end.

(** Lines end in LF; a row with another number of fields than the header
    is malformed; an empty field is a null cell. *)
Definition eng_read_csv (bytes : list N) : option (frame series) :=
  let lines := split_on 10 [] bytes in
  let lines := match reverse lines with [] :: l => reverse l | _ => lines end in
  match map (split_on 44 []) lines with
  | [] => None
  | header :: rows =>
      if forallb (λ r, bool_decide (length r = length header)) rows then
        Some (imap (λ j name,
                let cells := map (λ r, match r !! j with
                                       | Some ((_ :: _) as x) => Some x
                                       | _ => None
                                       end) rows in
                let dt := eng_infer_dtype cells in
                (name, Series dt (map (fmap (eng_text dt)) cells))) header)
      else None
  end.

Definition eng_unique (last_first : bool) (rows : list (list eng_cell))
    : list (list eng_cell) :=
  if last_first then reverse (dedup_first rows) else dedup_first rows.

(** ** Distinct rows *)

Lemma elem_of_dedup_first `{EqDecision A} (l : list A) (x : A) :
  x ∈ dedup_first l ↔ x ∈ l.
Proof.
  induction l as [|a l IH]; simpl; [done|].
  rewrite !elem_of_cons, list_elem_of_filter, IH.
  destruct (decide (x = a)); tauto.
Qed.

Lemma NoDup_dedup_first `{EqDecision A} (l : list A) : NoDup (dedup_first l).
Proof.
  induction l as [|a l IH]; simpl; constructor.
  - rewrite list_elem_of_filter. tauto.
  - by apply NoDup_filter.
Qed.

(** ** The small engine is an engine *)

Lemma digits_value_digits s m :
  digits_value s = Some m → s ≠ [] ∧ Forall (λ c, ascii_isdigit c = true) s.
Proof.
  unfold digits_value.
  assert (∀ t acc m', foldl (λ acc c, acc ≫= λ a,
            if ascii_isdigit c then Some (10 * a + (Z.of_N c - 48))%Z else None) acc t
            = Some m' → Forall (λ c, ascii_isdigit c = true) t) as Hfold.
  { induction t as [|c t IH]; intros acc m' Hm; simpl in *; [done|].
    constructor; [|by eapply IH].
    destruct acc as [a|]; simpl in Hm.
    - destruct (ascii_isdigit c); [done|].
      clear -Hm. exfalso. induction t; simpl in *; [done | auto].
    - clear -Hm. exfalso. induction t; simpl in *; [done | auto]. }
  destruct s as [|c t]; [done|]. intros Hm. split; [done | by eapply Hfold].
Qed.

Lemma eng_parse_i64_literal s z :
  eng_parse_i64 s = Some z →
  s ≠ [] ∧ Forall (λ c, ascii_isdigit c || (c =? 43)%N || (c =? 45)%N = true) s.
Proof.
  unfold eng_parse_i64.
  destruct (split_sign s) as [neg body] eqn:Hs.
  destruct (digits_value body) as [m|] eqn:Hm; [|done]. intros _.
  apply digits_value_digits in Hm as [Hne Hd].
  assert (Forall (λ c, ascii_isdigit c || (c =? 43)%N || (c =? 45)%N = true) body) as Hb.
  { eapply Forall_impl; [exact Hd|]. by intros c ->. }
  unfold split_sign in Hs. destruct s as [|c t]; [by injection Hs as <- <-|].
  split; [done|].
  destruct (c =? 45)%N eqn:H45; [injection Hs as <- <-|].
  { constructor; [|done]. rewrite H45. by rewrite orb_true_r. }
  destruct (c =? 43)%N eqn:H43; injection Hs as <- <-; [|done].
  constructor; [|done]. by rewrite H43, orb_true_r.
Qed.

Lemma eng_unique_NoDup b rows :
  Forall (Forall (λ c : eng_cell, cell_nan (λ _, false) c = false)) rows →
  NoDup (eng_unique b rows).
Proof.
  intros _. unfold eng_unique. destruct b; [rewrite reverse_Permutation|];
    apply NoDup_dedup_first.
Qed.

Lemma eng_unique_elem_of b rows r :
  Forall (Forall (λ c : eng_cell, cell_nan (λ _, false) c = false)) rows →
  r ∈ eng_unique b rows ↔ r ∈ rows.
Proof.
  intros _. unfold eng_unique. destruct b; [rewrite elem_of_reverse|];
    apply elem_of_dedup_first.
Qed.

(** The engine; [last_first] makes [unique] return the distinct rows in
    the reverse of their order of first occurrence. Its floats are
    decimals, none of them a NaN. *)
Definition engine (last_first : bool) : Polars := {|
  f64 := str;
  datetime := eng_datetime;
  datetime_format := eng_family;
  f64_is_nan := λ _, false;
  parse_i64 := eng_parse_i64;
  parse_f64 := eng_parse_f64;
  infer_datetime_format := eng_infer_format;
  parse_datetime := eng_parse_datetime;
  utf8_strip := strip_by ascii_isspace;
  unique := eng_unique last_first;
  read_csv := eng_read_csv;
  to_csv := eng_to_csv;
  parse_i64_literal := eng_parse_i64_literal;
  unique_NoDup := eng_unique_NoDup last_first;
  unique_elem_of := eng_unique_elem_of last_first
|}.

(** ** Example data *)

Definition LF : string := String (ascii_of_nat 10) EmptyString.

(** A table of string columns with a duplicate row and a row that differs
    from it in the case of one letter. *)
Definition example_csv : list N :=
  py ("First Name,Age ,Join-Date" ++ LF
      ++ "Alice,30,2021-01-05" ++ LF
      ++ "alice,30,2021-01-05" ++ LF
      ++ "Alice,30,2021-01-05" ++ LF
      ++ "Bob,n/a,2021-02-01" ++ LF)%string.

Definition example_out : list N :=
  py ("first_name,age,join_date" ++ LF
      ++ "Alice,30,2021-01-05T00:00:00" ++ LF
      ++ "alice,30,2021-01-05T00:00:00" ++ LF
      ++ "Bob,n/a,2021-02-01T00:00:00" ++ LF)%string.

(** The same table with an empty cell for the age that is no number: its
    second column is read as Int64. *)
Definition example_csv_int : list N :=
  py ("First Name,Age ,Join-Date" ++ LF
      ++ "Alice,30,2021-01-05" ++ LF
      ++ "alice,30,2021-01-05" ++ LF
      ++ "Alice,30,2021-01-05" ++ LF
      ++ "Bob,,2021-02-01" ++ LF)%string.

(** The input at [in.csv], and an older file at the destination. *)
Definition example_fs : filesystem :=
  {[ py "in.csv" := example_csv; py "out.csv" := py "old" ]}.

(** * Proofs *)

(** ** The matcher decides [Matches] *)

Lemma Matches_Void_inv s : ¬ Matches Void s.
Proof. inversion 1. Qed.

Lemma Matches_Eps_inv s : Matches Eps s ↔ s = [].
Proof. split; [by inversion 1 | intros ->; constructor]. Qed.

Lemma Matches_Chr_inv p s : Matches (Chr p) s ↔ ∃ c, s = [c] ∧ p c = true.
Proof.
  split; [inversion 1; eauto | intros (c & -> & Hc); by constructor].
Qed.

Lemma Matches_Alt_inv r1 r2 s :
  Matches (Alt r1 r2) s ↔ Matches r1 s ∨ Matches r2 s.
Proof.
  split; [inversion 1; auto | intros [?|?]; [by apply MAltL | by apply MAltR]].
Qed.

Lemma Matches_Cat_inv r1 r2 s :
  Matches (Cat r1 r2) s ↔ ∃ s1 s2, s = s1 ++ s2 ∧ Matches r1 s1 ∧ Matches r2 s2.
Proof.
  split; [inversion 1; eauto | intros (s1 & s2 & -> & ? & ?); by constructor].
Qed.

Lemma Matches_Opt_inv r s : Matches (Opt r) s ↔ s = [] ∨ Matches r s.
Proof. unfold Opt. by rewrite Matches_Alt_inv, Matches_Eps_inv. Qed.

Lemma Matches_Star_cons r c s :
  Matches (Star r) (c :: s) →
  ∃ s1 s2, s = s1 ++ s2 ∧ Matches r (c :: s1) ∧ Matches (Star r) s2.
Proof.
  intros Hm. remember (Star r) as r' eqn:Hr. remember (c :: s) as s' eqn:Hs.
  revert s Hs. induction Hm as [| | | | |r0|r0 s1 s2 H1 _ H2 IH2];
    intros t Ht; try discriminate.
  injection Hr as ->. destruct s1 as [|c1 s1]; simpl in Ht.
  - by apply IH2.
  - injection Ht as -> <-. eauto.
Qed.

Lemma nullable_spec r : nullable r = true ↔ Matches r [].
Proof.
  induction r as [| |p|r1 IH1 r2 IH2|r1 IH1 r2 IH2|r IH]; simpl.
  - split; [done | by intros ?%Matches_Void_inv].
  - by rewrite Matches_Eps_inv.
  - rewrite Matches_Chr_inv. split; [done | by intros (? & ? & ?)].
  - by rewrite orb_true_iff, Matches_Alt_inv, IH1, IH2.
  - rewrite andb_true_iff, Matches_Cat_inv, IH1, IH2. split.
    + intros [? ?]. by exists [], [].
    + intros (s1 & s2 & Hs & ? & ?).
      by destruct s1, s2; try discriminate.
  - split; [constructor | done].
Qed.

Lemma deriv_spec c r s : Matches (deriv c r) s ↔ Matches r (c :: s).
Proof.
  revert s. induction r as [| |p|r1 IH1 r2 IH2|r1 IH1 r2 IH2|r IH]; intros s; simpl.
  - split; by intros ?%Matches_Void_inv.
  - split; [by intros ?%Matches_Void_inv | by intros ?%Matches_Eps_inv].
  - rewrite Matches_Chr_inv. destruct (p c) eqn:Hp.
    + rewrite Matches_Eps_inv. split; [intros ->; eauto|].
      by intros (c' & [= ? ?] & _).
    + split; [by intros ?%Matches_Void_inv|].
      intros (c' & [= ? ?] & ?). congruence.
  - by rewrite !Matches_Alt_inv, IH1, IH2.
  - assert (Matches (Cat (deriv c r1) r2) s ∨ (nullable r1 = true ∧ Matches r2 (c :: s))
            ↔ Matches (Cat r1 r2) (c :: s)) as Hcat.
    { rewrite !Matches_Cat_inv. split.
      - intros [(s1 & s2 & -> & H1 & H2)|[Hn H2]].
        + exists (c :: s1), s2. by rewrite <- IH1.
        + exists [], (c :: s). by rewrite <- nullable_spec.
      - intros (s1 & s2 & Hs & H1 & H2). destruct s1 as [|c1 s1]; simpl in Hs.
        + subst s2. right. by rewrite nullable_spec.
        + injection Hs as <- ->. left. exists s1, s2. by rewrite IH1. }
    rewrite <- Hcat. destruct (nullable r1).
    + rewrite Matches_Alt_inv, IH2. tauto.
    + split; [auto | by intros [?|[? ?]]].
  - rewrite Matches_Cat_inv. split.
    + intros (s1 & s2 & -> & H1 & H2). apply IH in H1.
      by apply (MStarS r (c :: s1) s2).
    + intros (s1 & s2 & -> & H1 & H2)%Matches_Star_cons.
      exists s1, s2. by rewrite IH.
Qed.

Lemma re_match_spec r s : re_match r s = true ↔ Matches r s.
Proof.
  revert r. induction s as [|c s IH]; intros r; simpl.
  - apply nullable_spec.
  - by rewrite IH, deriv_spec.
Qed.

Lemma Matches_Plus_Chr p s :
  Matches (Plus (Chr p)) s ↔ s ≠ [] ∧ Forall (λ c, p c = true) s.
Proof.
  assert (∀ t, Matches (Star (Chr p)) t ↔ Forall (λ c, p c = true) t) as Hstar.
  { induction t as [|c t IH].
    - split; [constructor | constructor].
    - split.
      + intros (s1 & s2 & -> & (c' & Hc' & Hp)%Matches_Chr_inv & H2)%Matches_Star_cons.
        injection Hc' as -> ->. simpl in *. constructor; [done | by apply IH].
      + intros [Hp Ht]%Forall_cons. apply (MStarS _ [c] t); [by constructor | by apply IH]. }
  unfold Plus. rewrite Matches_Cat_inv. split.
  - intros (s1 & s2 & -> & (c & -> & Hp)%Matches_Chr_inv & H2). split; [done|].
    constructor; [done | by apply Hstar].
  - intros [Hne Hall]. destruct s as [|c t]; [done|].
    apply Forall_cons in Hall as [Hp Ht]. exists [c], t.
    split_and!; [done | by constructor | by apply Hstar].
Qed.

(** ** Stripping *)

Lemma lstrip_by_suffix p s : lstrip_by p s `suffix_of` s.
Proof.
  induction s as [|c s IH]; simpl; [done|].
  destruct (p c); [by apply suffix_cons_r | done].
Qed.

Lemma lstrip_by_head p s c : head (lstrip_by p s) = Some c → p c = false.
Proof.
  induction s as [|a s IH]; simpl; [done|].
  destruct (p a) eqn:Ha; [done|]. simpl. by intros [= <-].
Qed.

Lemma lstrip_by_id p s :
  (∀ c, head s = Some c → p c = false) → lstrip_by p s = s.
Proof. destruct s as [|c s]; simpl; [done|]. intros Hc. by rewrite Hc. Qed.

Lemma rstrip_by_prefix p s : rstrip_by p s `prefix_of` s.
Proof.
  unfold rstrip_by. destruct (lstrip_by_suffix p (reverse s)) as [a Ha].
  exists (reverse a). apply (inj reverse). by rewrite reverse_app, !reverse_involutive.
Qed.

Lemma rstrip_by_last p s c : last (rstrip_by p s) = Some c → p c = false.
Proof. unfold rstrip_by. rewrite last_reverse. apply lstrip_by_head. Qed.

Lemma rstrip_by_id p s :
  (∀ c, last s = Some c → p c = false) → rstrip_by p s = s.
Proof.
  intros Hc. unfold rstrip_by. rewrite lstrip_by_id, reverse_involutive; [done|].
  intros c. rewrite head_reverse. apply Hc.
Qed.

Lemma strip_by_infix p s : ∃ a b, s = a ++ strip_by p s ++ b.
Proof.
  destruct (lstrip_by_suffix p s) as [a Ha].
  destruct (rstrip_by_prefix p (lstrip_by p s)) as [b Hb].
  exists a, b. unfold strip_by. by rewrite <- Hb.
Qed.

Lemma strip_by_head p s c : head (strip_by p s) = Some c → p c = false.
Proof.
  unfold strip_by. destruct (rstrip_by_prefix p (lstrip_by p s)) as [b Hb].
  intros Hc. apply (lstrip_by_head p s). rewrite Hb.
  by destruct (rstrip_by p (lstrip_by p s)).
Qed.

Lemma strip_by_last p s c : last (strip_by p s) = Some c → p c = false.
Proof. apply rstrip_by_last. Qed.

Lemma strip_by_id p s :
  (∀ c, head s = Some c → p c = false) →
  (∀ c, last s = Some c → p c = false) → strip_by p s = s.
Proof.
  intros Hh Hl. unfold strip_by. rewrite lstrip_by_id by done. by apply rstrip_by_id.
Qed.

Lemma strip_by_Forall (P : codepoint → Prop) p s : Forall P s → Forall P (strip_by p s).
Proof.
  destruct (strip_by_infix p s) as (a & b & Hs). rewrite Hs at 1.
  by intros [_ [? _]%Forall_app]%Forall_app.
Qed.

(** ** Adjacent underscores *)

Lemma no_repeated_underscore_cons a t :
  no_repeated_underscore (a :: t) ↔
  (a = underscore → head t ≠ Some underscore) ∧ no_repeated_underscore t.
Proof.
  unfold no_repeated_underscore. split.
  - intros Hn. split.
    + intros -> Ht. destruct t as [|b t]; [done|]. injection Ht as ->.
      by apply (Hn [] t).
    + intros l1 l2 ->. by apply (Hn (a :: l1) l2).
  - intros [Ha Ht] l1 l2 Heq. destruct l1 as [|x l1]; simpl in Heq.
    + injection Heq as -> ->. by apply Ha.
    + injection Heq as -> ->. by apply (Ht l1 l2).
Qed.

Lemma no_repeated_underscore_nil : no_repeated_underscore [].
Proof. intros l1 l2 Heq. by destruct l1. Qed.

Lemma no_repeated_underscore_infix a s b :
  no_repeated_underscore (a ++ s ++ b) → no_repeated_underscore s.
Proof.
  intros Hn l1 l2 ->. apply (Hn (a ++ l1) (l2 ++ b)). by rewrite <- !app_assoc.
Qed.

(** ** re.sub *)

Lemma emit_run_one run : emit_run 1 run = [] ∨ emit_run 1 run = [underscore].
Proof.
  unfold emit_run. case_decide; [by right|].
  destruct run; [by left | simpl in *; lia].
Qed.

Lemma emit_run_underscores run :
  Forall (λ c, c = underscore) run →
  emit_run 2 run = [] ∨ emit_run 2 run = [underscore].
Proof.
  intros Hrun. unfold emit_run. case_decide; [by right|].
  destruct run as [|a [|b run]]; simpl in *; [by left | | lia].
  apply Forall_cons in Hrun as [-> _]. by right.
Qed.

(** What [re.sub(r"[^\w]+", "_", s)] is made of: underscores, and the
    characters of [s] outside the class. *)
Lemma re_sub_run_one_elem p run s c :
  c ∈ re_sub_run p 1 run s → c = underscore ∨ (c ∈ s ∧ p c = false).
Proof.
  revert run. induction s as [|a s IH]; intros run; simpl.
  - destruct (emit_run_one run) as [-> | ->]; set_solver.
  - destruct (p a) eqn:Ha.
    + intros [?|[? ?]]%IH; set_solver.
    + rewrite elem_of_app, elem_of_cons.
      intros [Hc|[->|[?|[? ?]]%IH]]; [|set_solver..].
      destruct (emit_run_one run) as [Hr | Hr]; rewrite Hr in Hc; set_solver.
Qed.

Lemma re_sub_run_underscore_elem run s c :
  Forall (λ c, c = underscore) run →
  c ∈ re_sub_run is_underscore 2 run s → c = underscore ∨ c ∈ s.
Proof.
  revert run. induction s as [|a s IH]; intros run Hrun; simpl.
  - destruct (emit_run_underscores run Hrun) as [-> | ->]; set_solver.
  - destruct (is_underscore a) eqn:Ha.
    + intros [?|?]%IH; [set_solver..|].
      apply Forall_app. split; [done|]. constructor; [|done].
      by apply N.eqb_eq in Ha.
    + rewrite elem_of_app, elem_of_cons.
      intros [Hc|[->|[?|?]%IH]]; [|set_solver..].
      destruct (emit_run_underscores run Hrun) as [Hr | Hr]; rewrite Hr in Hc; set_solver.
Qed.

(** After [re.sub(r"__+", "_", s)] no two underscores are adjacent. *)
Lemma re_sub_run_underscore_no_repeat run s :
  Forall (λ c, c = underscore) run →
  no_repeated_underscore (re_sub_run is_underscore 2 run s).
Proof.
  revert run. induction s as [|a s IH]; intros run Hrun; simpl.
  - destruct (emit_run_underscores run Hrun) as [-> | ->].
    + apply no_repeated_underscore_nil.
    + apply no_repeated_underscore_cons. split; [done | apply no_repeated_underscore_nil].
  - destruct (is_underscore a) eqn:Ha.
    + apply IH, Forall_app. split; [done|]. constructor; [|done].
      by apply N.eqb_eq in Ha.
    + assert (no_repeated_underscore (a :: re_sub_run is_underscore 2 [] s)) as Hrest.
      { apply no_repeated_underscore_cons. split; [|by apply IH].
        intros ->. by vm_compute in Ha. }
      destruct (emit_run_underscores run Hrun) as [-> | ->]; simpl; [done|].
      apply no_repeated_underscore_cons. split; [|done].
      intros _ [= ->]. by vm_compute in Ha.
Qed.

(** A string without a match is left as it is. *)
Lemma re_sub_run_no_match p min s :
  0 < min → Forall (λ c, p c = false) s → re_sub_run p min [] s = s.
Proof.
  intros Hmin. induction 1 as [|c s Hc _ IH]; simpl.
  - unfold emit_run. simpl. case_decide; [lia | done].
  - rewrite Hc, IH. unfold emit_run. simpl. case_decide; [lia | done].
Qed.

Lemma re_sub_run_underscore_id run s :
  Forall (λ c, c = underscore) run → length run ≤ 1 →
  no_repeated_underscore (run ++ s) →
  re_sub_run is_underscore 2 run s = run ++ s.
Proof.
  revert run. induction s as [|a s IH]; intros run Hrun Hlen Hno; simpl.
  - unfold emit_run. case_decide; [lia | by rewrite app_nil_r].
  - destruct (is_underscore a) eqn:Ha.
    + apply N.eqb_eq in Ha as ->. destruct run as [|b run].
      * simpl in *.
        rewrite (IH [underscore]); [done | by repeat constructor | simpl; lia | done].
      * apply Forall_cons in Hrun as [-> _]. destruct run; [|simpl in Hlen; lia].
        by destruct (Hno [] s).
    + rewrite (IH []); [| done | simpl; lia |].
      * unfold emit_run. case_decide; [lia | done].
      * apply (no_repeated_underscore_infix (run ++ [a]) s []).
        by rewrite app_nil_r, <- app_assoc.
Qed.

(** ** ASCII classes *)

Ltac ascii_unfold :=
  unfold ident_char, ascii_isword, ascii_isalnum, ascii_isspace, ascii_isupper,
    ascii_islower, ascii_isdigit, is_underscore, underscore, in_range in *.

Ltac ascii_true :=
  ascii_unfold;
  rewrite ?orb_true_iff, ?andb_true_iff, ?N.leb_le, ?N.eqb_eq in *.

Lemma ascii_isword_lt c : ascii_isword c = true → (c < 128)%N.
Proof. ascii_true. lia. Qed.

Lemma ident_char_lt c : ident_char c = true → (c < 128)%N.
Proof. ascii_true. lia. Qed.

Lemma ident_char_isword c : ident_char c = true → ascii_isword c = true.
Proof. ascii_true. lia. Qed.

Lemma ident_char_not_space c : ident_char c = true → ascii_isspace c = false.
Proof.
  intros Hc. destruct (ascii_isspace c) eqn:Hs; [|done].
  revert Hc Hs. ascii_true. lia.
Qed.

Lemma ascii_lower_ident c : ascii_isword c = true → ident_char (ascii_lower c) = true.
Proof.
  unfold ascii_lower. destruct (ascii_isupper c) eqn:Hu; revert Hu.
  - ascii_true. lia.
  - intros Hu Hw. destruct (ident_char c) eqn:Hi; [done|].
    revert Hu Hw Hi. ascii_unfold.
    rewrite !orb_true_iff, !orb_false_iff, !andb_true_iff, !andb_false_iff,
      !N.leb_le, !N.leb_gt, !N.eqb_eq, !N.eqb_neq. lia.
Qed.

Lemma ascii_lower_fixed c : ident_char c = true → ascii_lower c = c.
Proof.
  unfold ascii_lower. destruct (ascii_isupper c) eqn:Hu; [|done].
  revert Hu. ascii_true. lia.
Qed.

Lemma ascii_lower_underscore c : ascii_lower c = underscore ↔ c = underscore.
Proof.
  unfold ascii_lower. destruct (ascii_isupper c) eqn:Hu; [|done].
  revert Hu. ascii_true. unfold underscore. lia.
Qed.

Lemma ascii_lower_lt c : (c < 128)%N → (ascii_lower c < 128)%N.
Proof.
  unfold ascii_lower. destruct (ascii_isupper c) eqn:Hu; [|done].
  revert Hu. ascii_true. lia.
Qed.

Lemma ascii_lower_idemp c : ascii_lower (ascii_lower c) = ascii_lower c.
Proof.
  unfold ascii_lower. destruct (ascii_isupper c) eqn:Hu; [|by rewrite Hu].
  destruct (ascii_isupper (c + 32)) eqn:Hu'; [|done].
  revert Hu Hu'. ascii_true. lia.
Qed.

Lemma map_ascii_lower_no_repeat s :
  no_repeated_underscore s → no_repeated_underscore (map ascii_lower s).
Proof.
  induction s as [|a s IH]; simpl; [done|].
  rewrite !no_repeated_underscore_cons. intros [Ha Hs]. split; [|by apply IH].
  intros Hl. apply (proj1 (ascii_lower_underscore a)) in Hl.
  destruct s as [|b s]; simpl; [done|].
  intros [= Hb]. apply (proj1 (ascii_lower_underscore b)) in Hb.
  subst. by apply Ha.
Qed.

Lemma map_ascii_lower_fixed s :
  Forall (λ c, ident_char c = true) s → map ascii_lower s = s.
Proof.
  induction 1 as [|c s Hc _ IH]; simpl; [done|].
  by rewrite IH, ascii_lower_fixed.
Qed.

Lemma last_map {A B} (f : A → B) (l : list A) : last (map f l) = f <$> last l.
Proof. apply fmap_last. Qed.

Lemma head_map {A B} (f : A → B) (l : list A) : head (map f l) = f <$> head l.
Proof. by destruct l. Qed.

(** ** The sanitizer *)

Section SanitizerProofs.
Context `{Python}.

Lemma isword_ascii c : (c < 128)%N → isword c = ascii_isword c.
Proof. intros Hc. unfold isword, ascii_isword. by rewrite isalnum_ascii. Qed.

Lemma column_name_ok_col : column_name_ok (py "col").
Proof.
  split; [done | by repeat constructor | done | done |].
  repeat (apply no_repeated_underscore_cons; split; [done|]).
  apply no_repeated_underscore_nil.
Qed.

(** On input whose alphanumeric characters are all ASCII, the result is a
    column name. *)
Lemma sanitize_column_name_ok (x : str) :
  Forall (λ c, isalnum c = true → (c < 128)%N) x →
  column_name_ok (sanitize_column_name x).
Proof.
  intros Hx. unfold sanitize_column_name.
  set (s1 := strip x).
  set (s2 := re_sub_run (λ c, negb (isword c)) 1 [] s1).
  set (s3 := re_sub_run is_underscore 2 [] s2).
  set (s4 := strip_by is_underscore s3).
  assert (Forall (λ c, ascii_isword c = true) s2) as H2.
  { apply Forall_forall. intros c [->|[Hc Hw]]%re_sub_run_one_elem; [done|].
    apply negb_false_iff in Hw.
    assert (c < 128)%N as Hlt.
    { unfold isword in Hw. apply orb_true_iff in Hw as [Ha|Hu].
      - apply (strip_by_Forall _ isspace) in Hx.
        rewrite Forall_forall in Hx. by apply (Hx c).
      - apply N.eqb_eq in Hu as ->. done. }
    by rewrite <- isword_ascii. }
  assert (Forall (λ c, ascii_isword c = true) s3) as H3.
  { apply Forall_forall. intros c [->|Hc]%re_sub_run_underscore_elem; [done| |done].
    rewrite Forall_forall in H2. by apply H2. }
  assert (no_repeated_underscore s3) as N3
    by by apply re_sub_run_underscore_no_repeat.
  assert (Forall (λ c, ascii_isword c = true) s4) as H4
    by by apply strip_by_Forall.
  assert (no_repeated_underscore s4) as N4.
  { destruct (strip_by_infix is_underscore s3) as (a & b & Hs).
    apply (no_repeated_underscore_infix a s4 b). unfold s4. by rewrite <- Hs. }
  rewrite lower_ascii
    by (eapply Forall_impl; [exact H4 | apply ascii_isword_lt]).
  case_decide as Hnil; [apply column_name_ok_col|]. split.
  - done.
  - apply Forall_map. eapply Forall_impl; [exact H4|]. apply ascii_lower_ident.
  - rewrite head_map. destruct (head s4) as [c|] eqn:Hc; simpl; [|done].
    intros [= Hu]. apply (proj1 (ascii_lower_underscore c)) in Hu. subst c.
    by apply strip_by_head in Hc.
  - rewrite last_map. destruct (last s4) as [c|] eqn:Hc; simpl; [|done].
    intros [= Hu]. apply (proj1 (ascii_lower_underscore c)) in Hu. subst c.
    by apply strip_by_last in Hc.
  - by apply map_ascii_lower_no_repeat.
Qed.

(** A column name is a fixed point of the sanitizer. *)
Lemma sanitize_column_name_fixed (y : str) :
  column_name_ok y → sanitize_column_name y = y.
Proof.
  intros [Hne Hch Hhd Hla Hno]. unfold sanitize_column_name.
  assert (strip y = y) as ->.
  { apply strip_by_id; intros c Hc.
    - rewrite isspace_ascii; [apply ident_char_not_space | apply ident_char_lt];
        rewrite Forall_forall in Hch; apply Hch; by apply head_Some_elem_of.
    - rewrite isspace_ascii; [apply ident_char_not_space | apply ident_char_lt];
        rewrite Forall_forall in Hch; apply Hch; by apply last_Some_elem_of. }
  rewrite (re_sub_run_no_match (λ c, negb (isword c)) 1 y); [|lia|].
  2:{ eapply Forall_impl; [exact Hch|]. intros c Hc. simpl.
      rewrite isword_ascii by by apply ident_char_lt.
      by rewrite ident_char_isword. }
  rewrite (re_sub_run_underscore_id []); [|done|simpl; lia|done]. simpl.
  rewrite strip_by_id.
  2:{ intros c Hc. apply N.eqb_neq. intros ->. by apply Hhd. }
  2:{ intros c Hc. apply N.eqb_neq. intros ->. by apply Hla. }
  rewrite lower_ascii
    by (eapply Forall_impl; [exact Hch | apply ident_char_lt]).
  rewrite map_ascii_lower_fixed by done. by case_decide.
Qed.

End SanitizerProofs.

(** ** The table beyond ASCII *)

Lemma ucd_isalnum_not_space c : ucd_isalnum c = true → ucd_isspace c = false.
Proof.
  unfold ucd_isalnum, ucd_isspace. destruct (c <? 128)%N eqn:Hc.
  - intros Ha. destruct (ascii_isspace c) eqn:Hs; [|done]. revert Ha Hs.
    ascii_true. lia.
  - unfold in_range.
    rewrite !orb_true_iff, !andb_true_iff, !N.leb_le, !N.eqb_eq.
    intros Ha. apply not_true_iff_false.
    rewrite !orb_true_iff, !andb_true_iff, !N.leb_le, !N.eqb_eq. lia.
Qed.

Lemma ucd_lower_char_idemp c : ucd_lower_char c ≫= ucd_lower_char = ucd_lower_char c.
Proof.
  unfold ucd_lower_char at 2 3. destruct (c <? 128)%N eqn:Hc.
  - apply N.ltb_lt in Hc. cbn. rewrite app_nil_r. unfold ucd_lower_char.
    pose proof (ascii_lower_lt c Hc) as Hl. apply N.ltb_lt in Hl as ->.
    by rewrite ascii_lower_idemp.
  - pose proof Hc as Hge. apply N.ltb_ge in Hge.
    destruct (in_range 192 214 c || in_range 216 222 c) eqn:Hr.
    + cbn. rewrite app_nil_r. unfold ucd_lower_char.
      revert Hr. unfold in_range.
      rewrite !orb_true_iff, !andb_true_iff, !N.leb_le. intros Hr.
      assert ((c + 32 <? 128)%N = false) as -> by (apply N.ltb_ge; lia).
      assert ((192 <=? c + 32)%N && (c + 32 <=? 214)%N
              || (216 <=? c + 32)%N && (c + 32 <=? 222)%N = false) as ->.
      { apply not_true_iff_false.
        rewrite !orb_true_iff, !andb_true_iff, !N.leb_le. lia. }
      assert ((c + 32 =? 304)%N = false) as -> by (apply N.eqb_neq; lia). done.
    + destruct (c =? 304)%N eqn:H304; [done|].
      cbn. rewrite app_nil_r. unfold ucd_lower_char. by rewrite Hc, Hr, H304.
Qed.

Lemma ucd_lower_char_underscore c :
  underscore ∈ ucd_lower_char c → c = underscore.
Proof.
  unfold ucd_lower_char. destruct (c <? 128)%N eqn:Hc.
  - intros ->%list_elem_of_singleton%eq_sym%ascii_lower_underscore. done.
  - apply N.ltb_ge in Hc.
    destruct (in_range 192 214 c || in_range 216 222 c);
      [|destruct (c =? 304)%N]; unfold underscore; set_solver by lia.
Qed.

Lemma ucd_lower_idemp s : ucd_lower (ucd_lower s) = ucd_lower s.
Proof.
  unfold ucd_lower. induction s as [|c s IH]; [done|].
  cbn. rewrite bind_app, IH. f_equal. apply ucd_lower_char_idemp.
Qed.

Lemma ucd_lower_underscore a b :
  ucd_lower (a ++ underscore :: b) = ucd_lower a ++ underscore :: ucd_lower b.
Proof. unfold ucd_lower. by rewrite bind_app. Qed.

Lemma ucd_lower_no_underscore s : underscore ∉ s → underscore ∉ ucd_lower s.
Proof.
  unfold ucd_lower. intros Hs (c & Hc & Hin)%list_elem_of_bind.
  apply ucd_lower_char_underscore in Hc. by subst c.
Qed.

Lemma ucd_lower_nil s : ucd_lower s = [] → s = [].
Proof.
  destruct s as [|c s]; [done|]. unfold ucd_lower. cbn.
  unfold ucd_lower_char.
  destruct (c <? 128)%N; [done|].
  destruct (in_range 192 214 c || in_range 216 222 c); [done|].
  by destruct (c =? 304)%N.
Qed.

Definition ucd_case : @UnicodeCase ucd :=
  @Build_UnicodeCase ucd ucd_isalnum_not_space ucd_lower_idemp
    ucd_lower_underscore ucd_lower_no_underscore ucd_lower_nil.

(** ** Names beyond ASCII *)

Lemma no_repeated_underscore_app_underscore (a b : str) :
  underscore ∉ a → head b ≠ Some underscore → no_repeated_underscore b →
  no_repeated_underscore (a ++ underscore :: b).
Proof.
  intros Ha Hb Hno. induction a as [|c a IH]; simpl.
  - apply no_repeated_underscore_cons. by split.
  - apply not_elem_of_cons in Ha as [Hc Ha].
    apply no_repeated_underscore_cons. split; [done | by apply IH].
Qed.

Lemma no_underscore_no_repeat (s : str) :
  underscore ∉ s → no_repeated_underscore s.
Proof. intros Hs l1 l2 ->. apply Hs. set_solver. Qed.

Section NamesBeyondASCII.
Context `{Python} {UC : UnicodeCase}.

(** Lowercasing keeps the underscores of a name where they are: not at
    its ends and not next to one another. *)
Lemma lower_separated (n : nat) (y : str) :
  length y ≤ n →
  head y ≠ Some underscore → last y ≠ Some underscore →
  no_repeated_underscore y →
  head (lower y) ≠ Some underscore ∧ last (lower y) ≠ Some underscore
  ∧ no_repeated_underscore (lower y).
Proof.
  revert y. induction n as [|n IH]; intros y Hlen Hhd Hla Hno.
  { destruct y; [|simpl in Hlen; lia].
    assert (underscore ∉ lower []) as Hl
      by (apply lower_no_underscore, not_elem_of_nil).
    split_and!.
    - intros Hc%head_Some_elem_of. done.
    - intros Hc%last_Some_elem_of. done.
    - by apply no_underscore_no_repeat. }
  destruct (decide (underscore ∈ y)) as [Hin|Hnin].
  2:{ apply lower_no_underscore in Hnin. split_and!.
      - intros Hc%head_Some_elem_of. done.
      - intros Hc%last_Some_elem_of. done.
      - by apply no_underscore_no_repeat. }
  apply list_elem_of_split_l in Hin as (a & b & -> & Ha).
  assert (a ≠ []) as Hane by (intros ->; by apply Hhd).
  assert (b ≠ []) as Hbne.
  { intros ->. apply Hla. by rewrite last_app_cons. }
  assert (head b ≠ Some underscore) as Hbh.
  { destruct b as [|c b]; [done|]. intros [= ->].
    by apply (Hno a b). }
  assert (last b ≠ Some underscore) as Hbl.
  { intros Hb. apply Hla. rewrite last_app_cons.
    destruct b as [|c b]; [done|]. by rewrite last_cons_cons. }
  assert (no_repeated_underscore b) as Hbno.
  { apply (no_repeated_underscore_infix (a ++ [underscore]) b []).
    by rewrite app_nil_r, <- app_assoc. }
  destruct (IH b) as (Hlh & Hll & Hlno); [|done..|].
  { rewrite length_app in Hlen. simpl in Hlen. lia. }
  rewrite lower_underscore.
  assert (underscore ∉ lower a) as Hla' by by apply lower_no_underscore.
  assert (lower a ≠ []) as Hlane by (intros ?%lower_nil; done).
  assert (lower b ≠ []) as Hlbne by (intros ?%lower_nil; done).
  split_and!.
  - destruct (lower a) as [|c la] eqn:Hlaeq; [done|]. simpl. intros [= ->].
    apply Hla'. by left.
  - rewrite last_app_cons. destruct (lower b) as [|c lb] eqn:Hlbeq; [done|].
    by rewrite last_cons_cons.
  - by apply no_repeated_underscore_app_underscore.
Qed.

Lemma isword_not_space c : isword c = true → isspace c = false.
Proof.
  unfold isword. intros [Ha|Hu%N.eqb_eq]%orb_true_iff.
  - by apply isalnum_not_space.
  - subst c. by rewrite isspace_ascii.
Qed.

(** A name of word characters, its own lowercase, with its underscores
    inside and apart, is a fixed point of the sanitizer. *)
Lemma sanitize_column_name_fixed_word (z : str) :
  z ≠ [] → Forall (λ c, isword c = true) z →
  head z ≠ Some underscore → last z ≠ Some underscore →
  no_repeated_underscore z → lower z = z →
  sanitize_column_name z = z.
Proof.
  intros Hne Hw Hhd Hla Hno Hlow. unfold sanitize_column_name.
  assert (strip z = z) as ->.
  { rewrite Forall_forall in Hw.
    apply strip_by_id; intros c Hc; apply isword_not_space, Hw.
    - by apply head_Some_elem_of.
    - by apply last_Some_elem_of. }
  rewrite (re_sub_run_no_match (λ c, negb (isword c)) 1 z); [|lia|].
  2:{ eapply Forall_impl; [exact Hw|]. intros c Hc. simpl. by rewrite Hc. }
  rewrite (re_sub_run_underscore_id []); [|done|simpl; lia|done]. simpl.
  rewrite strip_by_id.
  2:{ intros c Hc. apply N.eqb_neq. intros ->. by apply Hhd. }
  2:{ intros c Hc. apply N.eqb_neq. intros ->. by apply Hla. }
  rewrite Hlow. by case_decide.
Qed.

End NamesBeyondASCII.

(** ** Lists *)

Lemma filter_all {A} (P : A → Prop) `{∀ x, Decision (P x)} (l : list A) :
  Forall P l → filter P l = l.
Proof.
  induction 1 as [|x l Hx _ IH]; [done|].
  by rewrite filter_cons, decide_True, IH.
Qed.

Lemma filter_none {A} (P : A → Prop) `{∀ x, Decision (P x)} (l : list A) :
  Forall (λ x, ¬ P x) l → filter P l = [].
Proof.
  induction 1 as [|x l Hx _ IH]; [done|].
  by rewrite filter_cons, decide_False, IH.
Qed.

(** ** The classifier *)

Lemma Zpos_of_nat (n : nat) : 0 < n → Z.pos (Pos.of_nat n) = Z.of_nat n.
Proof.
  intros Hn. rewrite <- (Nat2Pos.id n) at 2 by lia. by rewrite positive_nat_Z.
Qed.

Lemma numeric_threshold_reached (k total : nat) :
  0 < total →
  Qle_bool NUMERIC_THRESHOLD (truediv k total) = true ↔ 9 * total ≤ 10 * k.
Proof.
  intros Ht. unfold Qle_bool, NUMERIC_THRESHOLD, truediv. simpl.
  rewrite Z.leb_le, Zpos_of_nat by done. lia.
Qed.

Lemma date_threshold_reached (k total : nat) :
  0 < total →
  Qle_bool DATE_THRESHOLD (truediv k total) = true ↔ 3 * total ≤ 4 * k.
Proof.
  intros Ht. unfold Qle_bool, DATE_THRESHOLD, truediv. simpl.
  rewrite Z.leb_le, Zpos_of_nat by done. lia.
Qed.

(** The chain of [decide_type] in integer arithmetic. *)
Lemma decide_type_spec (t : tally) (total : nat) :
  decide_type t total =
    if bool_decide (0 < total ∧ 9 * total ≤ 10 * int_ok t) then TInt
    else if bool_decide (0 < total ∧ 9 * total ≤ 10 * float_ok t) then TFloat
    else if bool_decide (0 < total ∧ 3 * total ≤ 4 * date_ok t) then TDate
    else TString.
Proof.
  unfold decide_type. destruct (Nat.ltb_spec 0 total) as [Ht|Ht]; simpl.
  - assert (∀ (b : bool) (P : Prop) `{Decision P}, (b = true ↔ P) →
            b = bool_decide (0 < total ∧ P)) as Hb.
    { intros b P ? HbP. destruct b; symmetry.
      - apply bool_decide_eq_true. split; [done | by apply HbP].
      - apply bool_decide_eq_false. intros [_ HP]. by apply HbP in HP. }
    rewrite (Hb _ _ _ (numeric_threshold_reached (int_ok t) total Ht)).
    rewrite (Hb _ _ _ (numeric_threshold_reached (float_ok t) total Ht)).
    by rewrite (Hb _ _ _ (date_threshold_reached (date_ok t) total Ht)).
  - by rewrite !bool_decide_eq_false_2 by lia.
Qed.

(** ** Binary64 *)

Lemma elem_of_upto (fuel : nat) (i z : Z) :
  (i ≤ z < i + Z.of_nat fuel)%Z → In z (upto fuel i).
Proof.
  revert i. induction fuel as [|fuel IH]; intros i Hz; simpl; [lia|].
  destruct (decide (z = i)) as [->|Hne]; [by left|]. right. apply IH. lia.
Qed.

Lemma doubles_agree_spec (n : nat) (k total : Z) :
  doubles_agree n = true → (1 ≤ total ≤ Z.of_nat n)%Z → (0 ≤ k ≤ total)%Z →
  double_ge 0.9%float k total = (9 * total <=? 10 * k)%Z
  ∧ double_ge 0.75%float k total = (3 * total <=? 4 * k)%Z.
Proof.
  unfold doubles_agree. intros Hall Ht Hk.
  rewrite forallb_forall in Hall.
  specialize (Hall total (elem_of_upto n 1 total ltac:(lia))).
  rewrite forallb_forall in Hall.
  specialize (Hall k (elem_of_upto (S (Z.to_nat total)) 0 k ltac:(lia))).
  apply andb_true_iff in Hall as [H9 H75]. by apply Bool.eqb_prop in H9, H75.
Qed.

Lemma doubles_agree_1200 : doubles_agree 1200 = true.
Proof. vm_compute. reflexivity. Qed.

Lemma double_ge_exact (k total : nat) :
  0 < total ≤ 1200 → k ≤ total →
  double_ge 0.9%float (Z.of_nat k) (Z.of_nat total)
    = Qle_bool NUMERIC_THRESHOLD (truediv k total)
  ∧ double_ge 0.75%float (Z.of_nat k) (Z.of_nat total)
    = Qle_bool DATE_THRESHOLD (truediv k total).
Proof.
  intros Ht Hk.
  destruct (doubles_agree_spec 1200 (Z.of_nat k) (Z.of_nat total)
              doubles_agree_1200) as [-> ->]; [lia..|].
  unfold Qle_bool, NUMERIC_THRESHOLD, DATE_THRESHOLD, truediv.
  cbn [Qnum Qden]. rewrite Zpos_of_nat by lia. split; f_equal; lia.
Qed.

(** For the totals up to 1200 the decision in binary64 is the exact one. *)
Lemma decide_type_binary64_exact (t : tally) (total : nat) :
  total ≤ 1200 → int_ok t ≤ total → float_ok t ≤ total → date_ok t ≤ total →
  decide_type_binary64 t total = decide_type t total.
Proof.
  intros Ht Hi Hf Hd. unfold decide_type_binary64, decide_type.
  destruct (Nat.ltb_spec 0 total) as [Hpos|Hpos]; simpl; [|done].
  destruct (double_ge_exact (int_ok t) total) as [-> _]; [lia..|].
  destruct (double_ge_exact (float_ok t) total) as [-> _]; [lia..|].
  by destruct (double_ge_exact (date_ok t) total) as [_ ->]; [lia..|].
Qed.

Section ClassifierProofs.
Context `{Python}.
Variable date_parser_parse : str → bool.

(** What the loop has counted, from any starting tally: the values that
    passed the integer check, those that passed it or the float parse, and
    those that failed it and passed the date parse; the date parser was
    handed exactly the values that failed the integer check. *)
Lemma foldl_tally_value (t : tally) (vs : list str) :
  let ss := strip <$> vs in
  let t' := foldl (tally_value date_parser_parse) t vs in
  int_ok t' = int_ok t + length (filter (λ s, try_int s = true) ss)
  ∧ float_ok t' = float_ok t
      + length (filter (λ s, try_int s = true ∨ try_float s = true) ss)
  ∧ date_ok t' = date_ok t
      + length (filter (λ s, try_int s = false ∧ date_parser_parse s = true) ss)
  ∧ date_calls t' = date_calls t ++ filter (λ s, try_int s = false) ss.
Proof.
  cbv zeta. revert t. induction vs as [|v vs IH]; intros t.
  - simpl. rewrite !Nat.add_0_r, app_nil_r. done.
  - rewrite fmap_cons, !filter_cons. cbn [foldl].
    destruct (IH (tally_value date_parser_parse t v)) as (Hi & Hf & Hd & Hc).
    rewrite Hi, Hf, Hd, Hc. clear IH Hi Hf Hd Hc.
    unfold tally_value.
    destruct (try_int (strip v)) eqn:Hint;
      [|destruct (try_float (strip v)) eqn:Hfl,
                 (date_parser_parse (strip v)) eqn:Hdp];
      repeat case_decide; try (exfalso; intuition congruence);
      simpl; rewrite <- ?app_assoc; split_and!; lia || done.
Qed.

Lemma tally_loop_counts (vs : list str) :
  let ss := strip <$> vs in
  let t := tally_loop date_parser_parse vs in
  int_ok t = length (filter (λ s, try_int s = true) ss)
  ∧ float_ok t = length (filter (λ s, try_int s = true ∨ try_float s = true) ss)
  ∧ date_ok t
      = length (filter (λ s, try_int s = false ∧ date_parser_parse s = true) ss)
  ∧ date_calls t = filter (λ s, try_int s = false) ss.
Proof. apply (foldl_tally_value tally0 vs). Qed.

Lemma tally_loop_le (vs : list str) :
  let t := tally_loop date_parser_parse vs in
  int_ok t ≤ length vs ∧ float_ok t ≤ length vs ∧ date_ok t ≤ length vs.
Proof.
  cbv zeta. destruct (tally_loop_counts vs) as (-> & -> & -> & _).
  rewrite <- (length_fmap strip vs). split_and!; apply length_filter.
Qed.

Lemma infer_column_unfold (ser : list (option str)) :
  infer_column date_parser_parse ser =
    decide_type (tally_loop date_parser_parse (take SAMPLE_ROWS (non_null ser)))
      (length (non_null ser)).
Proof.
  unfold infer_column. destruct (non_null ser) eqn:Hn; [|done].
  by vm_compute.
Qed.

End ClassifierProofs.

(** ** Literals *)

Lemma Matches_Word cs s : Matches (Word cs) s ↔ map ascii_lower s = cs.
Proof.
  revert s. induction cs as [|c cs IH]; intros s; simpl.
  - rewrite Matches_Eps_inv. by destruct s.
  - rewrite Matches_Cat_inv. unfold Ci. split.
    + intros (s1 & s2 & -> & (x & -> & Hx)%Matches_Chr_inv & H2).
      apply N.eqb_eq in Hx. apply IH in H2. simpl. by rewrite Hx, H2.
    + destruct s as [|x s]; [done|]. simpl. intros [= Hx Hs].
      exists [x], s. split_and!; [done | |by apply IH].
      apply Matches_Chr_inv. exists x. split; [done | by apply N.eqb_eq].
Qed.

Lemma Matches_sign s :
  Matches (Opt sign_re) s ↔ s = [] ∨ s = py "+" ∨ s = py "-".
Proof.
  unfold sign_re, Lit. rewrite Matches_Opt_inv, Matches_Alt_inv, !Matches_Chr_inv.
  split.
  - intros [?|[(c & -> & ->%N.eqb_eq)|(c & -> & ->%N.eqb_eq)]]; auto.
  - intros [?|[->| ->]]; eauto 6.
Qed.

Section LiteralProofs.
Context `{Python}.

Lemma isdecimal_underscore : isdecimal underscore = false.
Proof. by rewrite isdecimal_ascii. Qed.

Lemma digit_part_one (d : codepoint) : isdecimal d = true → digit_part [d].
Proof.
  intros Hd. split_and!.
  - constructor; [by left | constructor].
  - by exists d.
  - by exists d.
  - apply no_repeated_underscore_cons. split; [done | apply no_repeated_underscore_nil].
Qed.

(** A digit part, read from the left: after a digit comes the end, a digit,
    or an underscore and a digit. *)
Lemma digit_part_cons (d0 c : codepoint) (rest : str) :
  isdecimal d0 = true →
  digit_part (d0 :: c :: rest)
  ↔ (isdecimal c = true ∧ digit_part (c :: rest))
    ∨ (c = underscore ∧ ∃ d r, rest = d :: r ∧ isdecimal d = true
                               ∧ digit_part (d :: r)).
Proof.
  intros Hd0. pose proof isdecimal_underscore as Hus.
  assert (d0 ≠ underscore) as Hd0' by congruence.
  split.
  - intros (Hall & _ & Hlast & Hno).
    apply Forall_cons in Hall as [_ Hall]. pose proof Hall as Hall'.
    apply Forall_cons in Hall' as [Hc Hrest].
    rewrite last_cons_cons in Hlast.
    apply no_repeated_underscore_cons in Hno as [_ Hno]. pose proof Hno as Hno'.
    apply no_repeated_underscore_cons in Hno' as [Hcr Hnor].
    destruct Hc as [Hc| ->].
    + left. split; [done|]. split_and!; [done | by exists c | done | done].
    + right. split; [done|]. destruct rest as [|d r].
      { destruct Hlast as (x & [= <-] & Hx). congruence. }
      assert (d ≠ underscore) as Hd by (intros ->; by apply Hcr).
      pose proof Hrest as Hrest'. apply Forall_cons in Hrest' as [[Hdd|?] _]; [|done].
      exists d, r. split_and!; [done | done|].
      split_and!; [done | by exists d | | done].
      by rewrite last_cons_cons in Hlast.
  - intros [(Hc & (Hall & _ & Hlast & Hno))
           |(-> & d & r & -> & Hd & (Hall & _ & Hlast & Hno))].
    + split_and!.
      * constructor; [by left | done].
      * by exists d0.
      * by rewrite last_cons_cons.
      * apply no_repeated_underscore_cons. split; [done | done].
    + assert (d ≠ underscore) as Hd' by congruence. split_and!.
      * constructor; [by left|]. constructor; [by right | done].
      * by exists d0.
      * by rewrite !last_cons_cons.
      * apply no_repeated_underscore_cons. split; [done|].
        apply no_repeated_underscore_cons. split; [|done]. intros _ [= ?]. done.
Qed.

Lemma Matches_digit_tail_cons (c : codepoint) (rest : str) :
  Matches digit_tail_re (c :: rest)
  ↔ (isdecimal c = true ∧ Matches digit_tail_re rest)
    ∨ (c = underscore ∧ ∃ d r, rest = d :: r ∧ isdecimal d = true
                               ∧ Matches digit_tail_re r).
Proof.
  unfold digit_tail_re, digit_re, Lit. split.
  - intros (s1 & s2 & -> & Hblock & Htail)%Matches_Star_cons.
    apply Matches_Cat_inv in Hblock
      as (u & v & Huv & Hu%Matches_Opt_inv & (d & -> & Hd)%Matches_Chr_inv).
    destruct Hu as [->|(x & -> & Hx%N.eqb_eq)%Matches_Chr_inv]; simpl in Huv.
    + injection Huv as -> ->. left. by split.
    + injection Huv as -> ->. right. split; [done|]. by exists d, s2.
  - intros [[Hc Htail]|(-> & d & r & -> & Hd & Htail)].
    + apply (MStarS _ [c] rest); [|done].
      apply (MCat _ _ [] [c]); [apply MAltL; constructor | by constructor].
    + apply (MStarS _ [underscore; d] r); [|done].
      apply (MCat _ _ [underscore] [d]); [|by constructor].
      apply MAltR. by constructor.
Qed.

Lemma Matches_digit_tail (n : nat) (rest : str) (d0 : codepoint) :
  length rest ≤ n → isdecimal d0 = true →
  Matches digit_tail_re rest ↔ digit_part (d0 :: rest).
Proof.
  revert rest d0. induction n as [|n IH]; intros rest d0 Hlen Hd0.
  - destruct rest; [|simpl in Hlen; lia].
    split; [intros _; by apply digit_part_one | intros _; constructor].
  - destruct rest as [|c rest].
    { split; [intros _; by apply digit_part_one | intros _; constructor]. }
    simpl in Hlen. rewrite Matches_digit_tail_cons, digit_part_cons by done.
    split.
    + intros [[Hc Ht]|(-> & d & r & -> & Hd & Ht)].
      * left. split; [done|]. apply IH; [lia | done | done].
      * right. split; [done|]. exists d, r. split_and!; [done..|].
        apply IH; [simpl in Hlen; lia | done | done].
    + intros [[Hc Ht]|(-> & d & r & -> & Hd & Ht)].
      * left. split; [done|]. eapply IH; [lia | exact Hc | done].
      * right. split; [done|]. exists d, r. split_and!; [done..|].
        eapply IH; [simpl in Hlen; lia | exact Hd | done].
Qed.

(** The pattern of a digit part matches the digit parts. *)
Lemma Matches_digitpart (s : str) : Matches digitpart_re s ↔ digit_part s.
Proof.
  change digitpart_re with (Cat digit_re digit_tail_re).
  rewrite Matches_Cat_inv. unfold digit_re. split.
  - intros (s1 & rest & -> & (d & -> & Hd)%Matches_Chr_inv & Ht).
    by apply (Matches_digit_tail (length rest) rest d).
  - intros Hs. pose proof Hs as (_ & (d & Hhead & Hd) & _).
    destruct s as [|d' rest]; [done|]. injection Hhead as ->.
    exists [d], rest. split_and!; [done | by constructor|].
    by apply (Matches_digit_tail (length rest) rest d).
Qed.

Lemma Matches_Ci_e (s : str) :
  Matches (Ci 101) s ↔ ∃ e, s = [e] ∧ (e = 101%N ∨ e = 69%N).
Proof.
  unfold Ci. rewrite Matches_Chr_inv. split.
  - intros (e & -> & He%N.eqb_eq). exists e. split; [done|].
    unfold ascii_lower in He. destruct (ascii_isupper e) eqn:Hup; [right | by left].
    lia.
  - intros (e & -> & [->| ->]); [by exists 101%N | by exists 69%N].
Qed.

Lemma Matches_exponent (s : str) : Matches exponent_re s ↔ exponent_part s.
Proof.
  unfold exponent_re, exponent_part. rewrite Matches_Cat_inv. split.
  - intros (s1 & s2 & -> & (e & -> & He)%Matches_Ci_e & Hrest).
    apply Matches_Cat_inv in Hrest
      as (sgn & ds & -> & Hsgn%Matches_sign & Hds%Matches_digitpart).
    by exists e, sgn, ds.
  - intros (e & sgn & ds & -> & He & Hsgn & Hds).
    exists [e], (sgn ++ ds). split_and!; [done | apply Matches_Ci_e; eauto|].
    apply Matches_Cat_inv. exists sgn, ds.
    split_and!; [done | by apply Matches_sign | by apply Matches_digitpart].
Qed.

Lemma Matches_point (s : str) : Matches (Lit 46) s ↔ s = py ".".
Proof.
  unfold Lit. rewrite Matches_Chr_inv. split.
  - by intros (c & -> & ->%N.eqb_eq).
  - intros ->. by exists 46%N.
Qed.

(** The pattern of [floatnumber] matches the decimal numbers. *)
Lemma Matches_floatnumber (s : str) : Matches floatnumber_re s ↔ decimal_number s.
Proof.
  unfold floatnumber_re, number_re, decimal_number.
  rewrite Matches_Cat_inv. split.
  - intros (num & ex & -> & Hnum & Hex).
    apply Matches_Opt_inv in Hex. rewrite Matches_exponent in Hex.
    apply Matches_Alt_inv in Hnum as [Hnum|Hnum].
    + apply Matches_Cat_inv in Hnum as (ip & fp & -> & Hip%Matches_Opt_inv & Hfp).
      apply Matches_Cat_inv in Hfp
        as (pt & ds & -> & ->%Matches_point & Hds%Matches_digitpart).
      rewrite Matches_digitpart in Hip.
      exists ip, (py "." ++ ds), ex. rewrite <- app_assoc.
      split_and!; [done | | done]. right. split; [done|]. by exists ds.
    + apply Matches_Cat_inv in Hnum
        as (ip & fp & -> & Hip%Matches_digitpart & Hfp%Matches_Opt_inv).
      rewrite Matches_point in Hfp.
      exists ip, fp, ex. rewrite <- app_assoc. split_and!; [done | by left | done].
  - intros (ip & fp & ex & -> & Hnum & Hex).
    exists (ip ++ fp), ex. rewrite <- app_assoc. split_and!; [done | |].
    + apply Matches_Alt_inv. destruct Hnum as [[Hip Hfp]|[Hip (ds & -> & Hds)]].
      * right. apply Matches_Cat_inv. exists ip, fp.
        split_and!; [done | by apply Matches_digitpart|].
        apply Matches_Opt_inv. by rewrite Matches_point.
      * left. apply Matches_Cat_inv. exists ip, (py "." ++ ds). split_and!; [done | |].
        -- apply Matches_Opt_inv. by rewrite Matches_digitpart.
        -- apply Matches_Cat_inv. exists (py "."), ds.
           split_and!; [done | by apply Matches_point | by apply Matches_digitpart].
    + apply Matches_Opt_inv. by rewrite Matches_exponent.
Qed.

Lemma py_float_is_Some (s : str) :
  is_Some (py_float s) ↔ float_literal (strip_by isspace_number s).
Proof.
  unfold py_float, float_literal.
  assert (∀ r x, re_match (Cat (Opt sign_re) r) x = true ↔
            ∃ sgn body, x = sgn ++ body
              ∧ (sgn = [] ∨ sgn = py "+" ∨ sgn = py "-") ∧ Matches r body) as Hcat.
  { intros r x. rewrite re_match_spec, Matches_Cat_inv.
    by setoid_rewrite Matches_sign. }
  set (x := strip_by isspace_number s).
  destruct (re_match (Cat (Opt sign_re) floatnumber_re) x) eqn:H1.
  { split; [|by eauto]. intros _. apply Hcat in H1 as (sgn & body & ? & ? & ?).
    exists sgn, body. split_and!; [done..|]. left. by apply Matches_floatnumber. }
  destruct (re_match (Cat (Opt sign_re) infinity_re) x) eqn:H2.
  { split; [|by eauto]. intros _. apply Hcat in H2 as (sgn & body & ? & ? & Hm).
    exists sgn, body. split_and!; [done..|].
    unfold infinity_re in Hm. rewrite Matches_Alt_inv, !Matches_Word in Hm. tauto. }
  destruct (re_match (Cat (Opt sign_re) nan_re) x) eqn:H3.
  { split; [|by eauto]. intros _. apply Hcat in H3 as (sgn & body & ? & ? & Hm).
    exists sgn, body. split_and!; [done..|].
    unfold nan_re in Hm. rewrite Matches_Word in Hm. tauto. }
  split; [by intros [? ?]|]. intros (sgn & body & Hs & Hsgn & Hbody). exfalso.
  destruct Hbody as [Hb|[Hb|[Hb|Hb]]].
  - apply not_true_iff_false in H1. apply H1, Hcat. exists sgn, body.
    split_and!; [done..|]. by apply Matches_floatnumber.
  - apply not_true_iff_false in H2. apply H2, Hcat. exists sgn, body.
    split_and!; [done..|]. unfold infinity_re. rewrite Matches_Alt_inv, !Matches_Word. auto.
  - apply not_true_iff_false in H2. apply H2, Hcat. exists sgn, body.
    split_and!; [done..|]. unfold infinity_re. rewrite Matches_Alt_inv, !Matches_Word. auto.
  - apply not_true_iff_false in H3. apply H3, Hcat. exists sgn, body.
    split_and!; [done..|]. unfold nan_re. by rewrite Matches_Word.
Qed.

End LiteralProofs.

(** ** The caster and unique *)

Section CasterProofs.
Context `{Polars}.

Lemma cast_utf8_non_strict {A} (parse : str → option A) (inj : A → pcell)
    (col : list (option str)) :
  cast_utf8 parse inj false col
  = inr (map (λ c, from_option inj CNull (c ≫= parse)) col).
Proof. done. Qed.

Lemma parse_i64_abc : parse_i64 (py "abc") = None.
Proof.
  destruct (parse_i64 (py "abc")) as [z|] eqn:Hz; [|done].
  apply parse_i64_literal in Hz as [_ Hall].
  apply Forall_cons in Hall as [Ha _]. by vm_compute in Ha.
Qed.



(** In a list without repetition, the entries equal to one of two given
    elements of the list are one or two. *)
Lemma filter_or_length {A} (P Q : A → Prop) `{∀ x, Decision (P x)}
    `{∀ x, Decision (Q x)} (l : list A) :
  (∀ x, P x → Q x → False) →
  length (filter (λ x, P x ∨ Q x) l) = length (filter P l) + length (filter Q l).
Proof.
  intros Hdisj. induction l as [|x l IH]; [done|].
  rewrite !filter_cons.
  destruct (decide (P x)) as [HP|HP], (decide (Q x)) as [HQ|HQ].
  - by destruct (Hdisj x).
  - rewrite decide_True by auto. simpl. by rewrite IH.
  - rewrite decide_True by auto. simpl. rewrite IH. lia.
  - rewrite decide_False by tauto. done.
Qed.



Lemma unique_Permutation (rows : list (list pcell)) :
  nan_free rows → unique rows ≡ₚ dedup_first rows.
Proof.
  intros Hnan.
  apply NoDup_Permutation; [by apply unique_NoDup | apply NoDup_dedup_first|].
  intros r. by rewrite unique_elem_of, elem_of_dedup_first.
Qed.

Lemma cast_expr_cells (t : col_type) (col : list (option str)) (out : list pcell) :
  cast_expr t col = inr out →
  out = map (cast_cell t (infer_datetime_format col)) col.
Proof.
  destruct t; simpl.
  - unfold replace_all_commas. rewrite cast_utf8_non_strict, map_map.
    intros [= <-]. apply map_ext. by intros [s|].
  - unfold replace_all_commas. rewrite cast_utf8_non_strict, map_map.
    intros [= <-]. apply map_ext. by intros [s|].
  - unfold strptime_datetime. destruct (infer_datetime_format col) as [fmt|]; [|done].
    rewrite cast_utf8_non_strict. by intros [= <-].
  - by intros [= <-].
Qed.

Lemma cast_expr_length (t : col_type) (col : list (option str)) (out : list pcell) :
  cast_expr t col = inr out → length out = length col.
Proof. intros ->%cast_expr_cells. apply length_map. Qed.

Lemma cast_expr_is_inr (t : col_type) (col : list (option str)) :
  (∃ out, cast_expr t col = inr out)
  ↔ (t = TDate → is_Some (infer_datetime_format col)).
Proof.
  destruct t; simpl; unfold strptime_datetime;
    rewrite ?cast_utf8_non_strict; try (split; [done | by eexists]).
  destruct (infer_datetime_format col) as [fmt|].
  - rewrite cast_utf8_non_strict. split; [by eexists | by eexists].
  - split; [by intros [? ?] | intros Hf; by destruct (Hf eq_refl)].
Qed.

(** A cast that does not raise casts every cell on its own. *)
Lemma cast_expr_inr (t : col_type) (col : list (option str)) :
  (t = TDate → is_Some (infer_datetime_format col)) →
  cast_expr t col = inr (map (cast_cell t (infer_datetime_format col)) col).
Proof.
  intros [out Hout]%cast_expr_is_inr. rewrite Hout. f_equal.
  by apply cast_expr_cells.
Qed.

Lemma cast_series_inr (t : col_type) (s : series) (out : list pcell) :
  cast_series t s = inr out
  ↔ series_dtype s = Utf8 ∧ cast_expr t (series_cells s) = inr out.
Proof.
  unfold cast_series, str_namespace.
  destruct (series_dtype s); simpl; split; try done; by intros [? ?].
Qed.

Lemma cast_series_not_Utf8 (t : col_type) (s : series) :
  series_dtype s ≠ Utf8 → cast_series t s = inl SchemaError.
Proof. unfold cast_series, str_namespace. by destruct (series_dtype s). Qed.

(** No cast raises OSError. *)
Lemma cast_series_not_OSError (t : col_type) (s : series) :
  cast_series t s ≠ inl OSError.
Proof.
  unfold cast_series, str_namespace. destruct (series_dtype s); simpl; [|done..].
  destruct t; simpl; try done.
  unfold strptime_datetime. by destruct (infer_datetime_format _).
Qed.

End CasterProofs.

(** ** The pipeline *)


Lemma foldl_insert_lookup {V} (f : list (option str) → V)
    (df : list (str * list (option str))) (m : gmap str V) (k : str) :
  NoDup (columns df) →
  (k ∉ columns df → foldl (λ r c, <[c.1 := f c.2]> r) m df !! k = m !! k)
  ∧ (∀ ser, (k, ser) ∈ df →
       foldl (λ r c, <[c.1 := f c.2]> r) m df !! k = Some (f ser)).
Proof.
  revert m. induction df as [|[name col] df IH]; intros m Hnd; simpl.
  - split; [done | by intros ser ?%elem_of_nil].
  - apply NoDup_cons in Hnd as [Hname Hnd].
    destruct (IH (<[name := f col]> m) Hnd) as [IH1 IH2]. split.
    + intros Hk. apply not_elem_of_cons in Hk as [Hne Hk].
      rewrite IH1 by done. by rewrite lookup_insert_ne.
    + intros ser [Heq|Hin]%elem_of_cons.
      * injection Heq as -> ->. rewrite IH1 by done. by rewrite lookup_insert_eq.
      * by apply IH2.
Qed.

Lemma foldl_insert_zip_lookup (f : str → str) (ks : list str) (m : gmap str str)
    (k : str) :
  foldl (λ m kv, <[kv.1 := kv.2]> m) m (zip ks (map f ks)) !! k
  = if decide (k ∈ ks) then Some (f k) else m !! k.
Proof.
  revert m. induction ks as [|k0 ks IH]; intros m.
  - by rewrite decide_False by apply not_elem_of_nil.
  - change (foldl (λ m kv, <[kv.1 := kv.2]> m) (<[k0 := f k0]> m)
              (zip ks (map f ks)) !! k
            = if decide (k ∈ k0 :: ks) then Some (f k) else m !! k).
    rewrite IH. destruct (decide (k ∈ ks)) as [Hin|Hnin].
    + rewrite decide_True; [done | by right].
    + destruct (decide (k = k0)) as [->|Hne].
      * rewrite decide_True by by left. by rewrite lookup_insert_eq.
      * rewrite decide_False, lookup_insert_ne; [done..|].
        by intros [?|?]%elem_of_cons.
Qed.

Lemma collect_map_inr {A B} (f : A → result B) (l : list A) (out : list B) :
  collect (map f l) = inr out → Forall2 (λ a b, f a = inr b) l out.
Proof.
  revert out. induction l as [|a l IH]; intros out; simpl.
  - intros [= <-]. constructor.
  - destruct (f a) as [e|b] eqn:Hb; simpl; [done|].
    destruct (collect (map f l)) as [e|bs]; simpl; [done|].
    intros [= <-]. constructor; [done | by apply IH].
Qed.

Lemma collect_map_inl {A B} (f : A → result B) (l : list A) (e : exn) :
  collect (map f l) = inl e → ∃ a, a ∈ l ∧ f a = inl e.
Proof.
  induction l as [|a l IH]; simpl; [done|].
  destruct (f a) as [e'|b] eqn:Hb; simpl.
  - intros [= ->]. exists a. split; [by left | done].
  - destruct (collect (map f l)) as [e'|bs]; simpl; [|done].
    intros [= ->]. destruct IH as (a' & Hin & Ha'); [done|].
    exists a'. split; [by right | done].
Qed.

Lemma collect_map_is_inr {A B} (f : A → result B) (l : list A) :
  (∃ out, collect (map f l) = inr out) ↔ Forall (λ a, ∃ b, f a = inr b) l.
Proof.
  split.
  - intros [out Hout%collect_map_inr].
    induction Hout as [|a b l out Hab _ IH]; constructor; eauto.
  - intros Hall. destruct (collect (map f l)) as [e|out] eqn:Hc; [|by eexists].
    apply collect_map_inl in Hc as (a & Ha & Hfa).
    rewrite Forall_forall in Hall. destruct (Hall a Ha) as [b Hb]. congruence.
Qed.

Lemma transpose_cons {A} (c : list A) (cs : list (list A)) :
  cs ≠ [] → transpose (c :: cs) = zip_with cons c (transpose cs).
Proof. by destruct cs. Qed.

Lemma transpose_length {A} (cols : list (list A)) (m : nat) :
  cols ≠ [] → Forall (λ c, length c = m) cols → length (transpose cols) = m.
Proof.
  induction cols as [|c cs IH]; [done|]. intros _ [Hc Hcs]%Forall_cons.
  destruct cs as [|c' cs'].
  - simpl. by rewrite length_map.
  - rewrite transpose_cons by done. rewrite length_zip_with, IH by done. lia.
Qed.

Lemma transpose_widths {A} (cols : list (list A)) :
  Forall (λ r, length r = length cols) (transpose cols).
Proof.
  induction cols as [|c cs IH]; [constructor|].
  destruct cs as [|c' cs'].
  - simpl. apply Forall_fmap, Forall_forall. by intros x _.
  - rewrite transpose_cons by done. apply Forall_forall. intros r Hr.
    apply elem_of_lookup_zip_with in Hr as (i & x & r' & -> & _ & Hr').
    apply list_elem_of_lookup_2 in Hr'. rewrite Forall_forall in IH.
    simpl. f_equal. by apply IH.
Qed.

Lemma collect_map_not_OSError {A B} (f : A → result B) (l : list A) :
  (∀ a, f a ≠ inl OSError) → collect (map f l) ≠ inl OSError.
Proof.
  intros Hf Hc. apply collect_map_inl in Hc as (a & _ & Ha). by apply (Hf a).
Qed.

Section PipelineProofs.
Context `{Python} `{Polars}.
Variable date_parser_parse : str → bool.

Lemma columns_limit (n : nat) (df : frame series) :
  columns (limit n df) = columns df.
Proof. unfold columns, limit. rewrite map_map. by apply map_ext. Qed.

Lemma columns_sanitized {A} (df : frame A) :
  columns (map (λ c : str * A, (sanitize_column_name c.1, c.2)) df)
  = map sanitize_column_name (columns df).
Proof. unfold columns. rewrite !map_map. by apply map_ext. Qed.

Lemma rename_sanitized {A : Type} (ks : list str) (df : frame A) :
  Forall (λ k, k ∈ ks) (columns df) →
  rename (make_rename_map ks (map sanitize_column_name ks)) df
  = if bool_decide (NoDup (map sanitize_column_name (columns df)))
    then inr (map (λ c, (sanitize_column_name c.1, c.2)) df)
    else inl DuplicateError.
Proof.
  intros Hks. unfold rename.
  assert (map (λ c : str * A,
                 (default c.1 (make_rename_map ks (map sanitize_column_name ks) !! c.1),
                  c.2)) df
          = map (λ c, (sanitize_column_name c.1, c.2)) df) as ->.
  { apply map_ext_in. intros c Hc%list_elem_of_In. unfold make_rename_map.
    rewrite foldl_insert_zip_lookup, decide_True; [done|].
    rewrite Forall_forall in Hks. apply Hks. unfold columns.
    apply list_elem_of_fmap. by exists c. }
  by rewrite columns_sanitized.
Qed.

(** The run of [clean_csv] between the read and the write, column by
    column. *)
Lemma clean_frame_unfold (sample_rows : nat) (lf : frame series) :
  clean_frame date_parser_parse sample_rows lf
  = if bool_decide (NoDup (map sanitize_column_name (columns lf)))
    then bind (collect (map (λ c, cast_series (sample_type date_parser_parse sample_rows c.2) c.2) lf))
           (λ cols, inr (map sanitize_column_name (columns lf),
                         unique (transpose cols)))
    else inl DuplicateError.
Proof.
  unfold clean_frame. rewrite columns_limit.
  rewrite !rename_sanitized
    by (rewrite ?columns_limit; apply Forall_forall; auto).
  rewrite columns_limit.
  case_bool_decide as Hnd; [|done]. simpl.
  rewrite columns_sanitized.
  rewrite map_map. f_equal. f_equal. apply map_ext_in.
  intros c Hc%list_elem_of_In. simpl.
  unfold infer_column_types_from_sample.
  set (df := to_lists (map (λ c : str * series, (sanitize_column_name c.1, c.2))
                         (limit sample_rows lf))).
  assert (columns df = map sanitize_column_name (columns lf)) as Hcols.
  { unfold df, columns, to_lists, limit. rewrite !map_map. by apply map_ext. }
  assert (NoDup (columns df)) as Hnd' by by rewrite Hcols.
  rewrite (proj2 (foldl_insert_lookup (infer_column date_parser_parse) df ∅
                    (sanitize_column_name c.1) Hnd')
             (take sample_rows (series_cells c.2))); [done|].
  unfold df, to_lists, limit. rewrite !map_map. apply list_elem_of_fmap.
  by exists c.
Qed.

Lemma cast_series_castable (sample_rows : nat) (s : series) (col : list pcell) :
  cast_series (sample_type date_parser_parse sample_rows s) s = inr col
  ↔ castable date_parser_parse sample_rows s
    ∧ col = map (cast_cell (sample_type date_parser_parse sample_rows s)
                   (infer_datetime_format (series_cells s))) (series_cells s).
Proof.
  rewrite cast_series_inr. unfold castable. split.
  - intros [Hdt Hc]. split_and!; [done | | by apply cast_expr_cells].
    apply cast_expr_is_inr. eauto.
  - intros [[Hdt Hfmt] ->]. split; [done | by apply cast_expr_inr].
Qed.

Lemma collect_cast_series (sample_rows : nat) (lf : frame series)
    (cols : list (list pcell)) :
  collect (map (λ c, cast_series (sample_type date_parser_parse sample_rows c.2) c.2) lf) = inr cols
  ↔ Forall (λ c, castable date_parser_parse sample_rows c.2) lf
    ∧ cols = cast_table date_parser_parse sample_rows lf.
Proof.
  split.
  - intros Hc%collect_map_inr.
    induction Hc as [|c col lf cols Hc _ [IH1 IH2]]; [done|].
    apply cast_series_castable in Hc as [Hok ->]. split; [by constructor|].
    simpl. by rewrite IH2.
  - intros [Hall ->]. induction Hall as [|c lf Hok _ IH]; [done|]. simpl.
    assert (cast_series (sample_type date_parser_parse sample_rows c.2) c.2
            = inr (map (cast_cell (sample_type date_parser_parse sample_rows c.2)
                          (infer_datetime_format (series_cells c.2)))
                     (series_cells c.2))) as ->
      by by apply cast_series_castable.
    simpl. by rewrite IH.
Qed.

(** The run between the read and the write returns exactly on tables of
    Utf8 columns whose labels are sanitized to distinct names and whose
    date columns have a datetime format, with the sanitized labels and the
    distinct rows of the cast table. *)
Lemma clean_frame_inr (sample_rows : nat) (lf : frame series)
    (header : list str) (rows : list (list pcell)) :
  clean_frame date_parser_parse sample_rows lf = inr (header, rows)
  ↔ NoDup (map sanitize_column_name (columns lf))
    ∧ Forall (λ c, castable date_parser_parse sample_rows c.2) lf
    ∧ header = map sanitize_column_name (columns lf)
    ∧ rows = unique (transpose (cast_table date_parser_parse sample_rows lf)).
Proof.
  rewrite clean_frame_unfold. case_bool_decide as Hnd; [|split; [done | tauto]].
  destruct (collect _) as [e|cols] eqn:Hcols; simpl.
  - split; [done|]. intros (_ & Hall & _).
    assert (inl e = inr (cast_table date_parser_parse sample_rows lf)) as Habs
      by (rewrite <- Hcols; by apply collect_cast_series). done.
  - apply collect_cast_series in Hcols as [Hall ->]. split.
    + by intros [= <- <-].
    + by intros (_ & _ & -> & ->).
Qed.

Lemma clean_frame_not_OSError (sample_rows : nat) (lf : frame series) :
  clean_frame date_parser_parse sample_rows lf ≠ inl OSError.
Proof.
  rewrite clean_frame_unfold. case_bool_decide; [|done].
  destruct (collect _) as [e|cols] eqn:Hc; simpl; [|done].
  intros [= ->]. revert Hc. apply collect_map_not_OSError.
  intros c. apply cast_series_not_OSError.
Qed.

End PipelineProofs.

(** * The claims *)

(** ** The sanitizer *)

(** C4 (amended). For every input whose alphanumeric characters are all
    ASCII, the sanitized name is non-empty, matches [^[a-z0-9_]+$], and has
    no leading, trailing or repeated underscore. *)
Theorem sanitize_column_name_identifier `{Python} (x : str) :
  Forall (λ c, isalnum c = true → (c < 128)%N) x →
  sanitize_column_name x ≠ []
  ∧ re_match ident_re (sanitize_column_name x) = true
  ∧ head (sanitize_column_name x) ≠ Some underscore
  ∧ last (sanitize_column_name x) ≠ Some underscore
  ∧ no_repeated_underscore (sanitize_column_name x).
Proof.
  intros [Hne Hch Hhd Hla Hno]%sanitize_column_name_ok. split_and!; try done.
  apply re_match_spec. unfold ident_re. by apply Matches_Plus_Chr.
Qed.

(** C5 (amended). Sanitizing twice gives the same name as sanitizing once
    for every input whose sanitized name consists of word characters, that
    is, whenever lowercasing, the last step, has put no character into the
    name that is no word character. *)
Theorem sanitize_column_name_idempotent `{Python} {UC : UnicodeCase} (x : str) :
  Forall (λ c, isword c = true) (sanitize_column_name x) →
  sanitize_column_name (sanitize_column_name x) = sanitize_column_name x.
Proof.
  unfold sanitize_column_name at 1 3 4.
  set (s3 := re_sub_run is_underscore 2 []
               (re_sub_run (λ c, negb (isword c)) 1 [] (strip x))).
  set (s4 := strip_by is_underscore s3).
  assert (no_repeated_underscore s4) as N4.
  { destruct (strip_by_infix is_underscore s3) as (a & b & Hs).
    apply (no_repeated_underscore_infix a s4 b). unfold s4. rewrite <- Hs.
    by apply re_sub_run_underscore_no_repeat. }
  assert (head s4 ≠ Some underscore) as Hhd.
  { intros Hc. by apply strip_by_head in Hc. }
  assert (last s4 ≠ Some underscore) as Hla.
  { intros Hc. by apply strip_by_last in Hc. }
  destruct (lower_separated (length s4) s4) as (Hlh & Hll & Hlno); [done..|].
  case_decide as Hnil.
  { intros _. apply sanitize_column_name_fixed, column_name_ok_col. }
  intros Hw. apply sanitize_column_name_fixed_word; try done. apply lower_idemp.
Qed.

(** ** The classifier *)

Section ClassifierClaims.
Context `{Python}.
Variable date_parser_parse : str → bool.

(** C1. The ordered threshold decision, first match winning, over the
    successes counted among the values examined (the first SAMPLE_ROWS
    non-empty values): those that pass the integer check, those that pass
    it or the float parse, those that fail it and pass the date parse.
    The code takes the three ratios over the number of all non-empty
    values. Up to SAMPLE_ROWS non-empty values that is the number of values
    examined and the classification is the decision of the claim: 'int'
    when the integer ratio reaches 9/10 (so with 9 integers among 10
    values, and not with 89 among 100), otherwise 'float' when the float
    ratio reaches 9/10, otherwise 'date' when the date ratio reaches 3/4,
    otherwise 'string'. Beyond 1111 non-empty values the two part: a
    column whose examined values are all integers has an integer ratio of
    1 and is not classified 'int'. Up to 1200 non-empty values the result
    is also the one of the chain evaluated in binary64. *)
Theorem infer_column_decision (ser : list (option str)) :
  let total := length (non_null ser) in
  let vs := take SAMPLE_ROWS (non_null ser) in
  let ss := strip <$> vs in
  let ints := length (filter (λ s, try_int s = true) ss) in
  let floats := length (filter (λ s, try_int s = true ∨ try_float s = true) ss) in
  let dates :=
    length (filter (λ s, try_int s = false ∧ date_parser_parse s = true) ss) in
  let decision (n : nat) :=
    if bool_decide (0 < n ∧ 9 * n ≤ 10 * ints) then TInt
    else if bool_decide (0 < n ∧ 9 * n ≤ 10 * floats) then TFloat
    else if bool_decide (0 < n ∧ 3 * n ≤ 4 * dates) then TDate
    else TString in
  infer_column date_parser_parse ser = decision total
  ∧ (total ≤ SAMPLE_ROWS →
     infer_column date_parser_parse ser = decision (length vs))
  ∧ (total = 10 → ints = 9 → infer_column date_parser_parse ser = TInt)
  ∧ (total = 100 → ints = 89 → infer_column date_parser_parse ser ≠ TInt)
  ∧ (1111 < total → ints = length vs →
     decision (length vs) = TInt ∧ infer_column date_parser_parse ser ≠ TInt)
  ∧ (total ≤ 1200 →
     infer_column date_parser_parse ser
     = decide_type_binary64 (tally_loop date_parser_parse vs) total).
Proof.
  cbv zeta. rewrite infer_column_unfold.
  destruct (tally_loop_counts date_parser_parse (take SAMPLE_ROWS (non_null ser)))
    as (Hi & Hf & Hd & _).
  destruct (tally_loop_le date_parser_parse (take SAMPLE_ROWS (non_null ser)))
    as (Hi' & Hf' & Hd').
  assert (length (take SAMPLE_ROWS (non_null ser)) ≤ length (non_null ser))
    as Hle by (rewrite length_take; lia).
  assert (length (take SAMPLE_ROWS (non_null ser)) ≤ SAMPLE_ROWS)
    as Hcap by (rewrite length_take; lia).
  split_and!.
  - by rewrite decide_type_spec, Hi, Hf, Hd.
  - intros Htot. rewrite decide_type_spec, Hi, Hf, Hd.
    by rewrite (take_ge (non_null ser)) by lia.
  - intros Htot Hints. rewrite decide_type_spec, Hi, Hints.
    by rewrite bool_decide_eq_true_2 by lia.
  - intros Htot Hints. rewrite decide_type_spec, Hi, Hints.
    rewrite bool_decide_eq_false_2 by lia. repeat case_bool_decide; done.
  - intros Htot Hints. rewrite Hints.
    pose proof (length_take (non_null ser) SAMPLE_ROWS) as Hn.
    set (n := length (take SAMPLE_ROWS (non_null ser))) in *.
    unfold SAMPLE_ROWS in Hcap, Hn. split.
    + rewrite bool_decide_eq_true_2; [done | lia].
    + rewrite decide_type_spec, Hi, Hints.
      rewrite bool_decide_eq_false_2 by lia. repeat case_bool_decide; done.
  - intros Htot. symmetry. apply decide_type_binary64_exact; lia.
Qed.

(** C3 (amended). The float parse of a value succeeds if and only if the
    string, with commas removed and without the whitespace [float] skips
    at either end, is a float literal of Python: an optional sign followed
    by a decimal number (digit parts, which single underscores may group,
    with an optional fraction and exponent) or by inf, infinity or nan in
    any letter case. The float tally grows by one exactly for the values
    that pass the integer check or this parse. *)
Theorem try_float_float_literal (t : tally) (v : str) :
  let s := strip v in
  (try_float s = true
   ↔ float_literal (strip_by isspace_number (remove_char 44 s)))
  ∧ float_ok (tally_value date_parser_parse t v)
    = float_ok t + (if try_int s || try_float s then 1 else 0).
Proof.
  cbv zeta. split.
  - unfold try_float. rewrite bool_decide_eq_true. apply py_float_is_Some.
  - unfold tally_value. destruct (try_int (strip v)); simpl; [lia|].
    destruct (try_float (strip v)); simpl; lia.
Qed.

(** C10. The date parser is handed exactly the sampled values that fail
    the integer check, so a value that passes it counts toward the integer
    and float tallies and never toward the date tally; a column whose
    sampled values all pass the integer check has a date tally of zero and
    is never classified 'date'. *)
Theorem integer_values_skip_date_parse (ser : list (option str)) :
  let vs := take SAMPLE_ROWS (non_null ser) in
  let t := tally_loop date_parser_parse vs in
  date_calls t = filter (λ s, try_int s = false) (strip <$> vs)
  ∧ (Forall (λ v, try_int (strip v) = true) vs →
     int_ok t = length vs ∧ float_ok t = length vs ∧ date_ok t = 0
     ∧ date_calls t = []
     ∧ infer_column date_parser_parse ser ≠ TDate).
Proof.
  cbv zeta.
  destruct (tally_loop_counts date_parser_parse (take SAMPLE_ROWS (non_null ser)))
    as (Hi & Hf & Hd & Hc).
  split; [done|]. intros Hall.
  assert (Forall (λ s, try_int s = true) (strip <$> take SAMPLE_ROWS (non_null ser)))
    as Hall' by by apply Forall_fmap.
  assert (date_ok (tally_loop date_parser_parse (take SAMPLE_ROWS (non_null ser))) = 0)
    as Hd0.
  { rewrite Hd, filter_none; [done|].
    eapply Forall_impl; [exact Hall'|]. intros s Hs [Hs' _]. congruence. }
  split_and!.
  - by rewrite Hi, filter_all, length_fmap.
  - rewrite Hf, filter_all, length_fmap; [done|].
    eapply Forall_impl; [exact Hall'|]. auto.
  - done.
  - rewrite Hc, filter_none; [done|].
    eapply Forall_impl; [exact Hall'|]. intros s Hs Hs'. congruence.
  - rewrite infer_column_unfold, decide_type_spec, Hd0.
    repeat case_bool_decide; try done. lia.
Qed.

End ClassifierClaims.

(** C2. The denominator of the three ratios is the number of all non-empty
    values, not the number of values examined under the cap of SAMPLE_ROWS:
    of 1112 values "1" the loop examines 1000, all of them integers, and
    the column is classified 'string' since 1000 / 1112 < 0.9. *)
Theorem infer_column_denominator_uncapped (date_parser_parse : str → bool) :
  let ser := replicate 1112 (Some (py "1")) in
  let vs := @non_null cpython ser in
  length vs = 1112
  ∧ length (take SAMPLE_ROWS vs) = 1000
  ∧ int_ok (@tally_loop cpython date_parser_parse (take SAMPLE_ROWS vs)) = 1000
  ∧ @infer_column cpython date_parser_parse ser = TString.
Proof. by vm_compute. Qed.

(** ** The caster and the pipeline *)

Section PipelineClaims.
Context `{Python} `{Polars}.
Variable date_parser_parse : str → bool.

(** C6 (amended). On a table of columns read as strings, with labels that
    are sanitized to distinct names and a datetime format that the engine
    can infer for every column inferred 'date', the cast does not abort the
    run: the rows written are those of the table in which every cell is
    cast on its own, by the type inferred for its column, and a value that
    fails to parse becomes a null cell, for that value only (so "abc" in
    an 'int' column). The cast of a cell depends on the cell and the
    column's type only for 'int', 'float' and 'string'; for 'date' it
    depends also on the format the engine infers from the values of the
    column. *)
Theorem clean_frame_cast_per_cell (sample_rows : nat) (lf : frame series) :
  NoDup (map sanitize_column_name (columns lf)) →
  Forall (λ c, series_dtype c.2 = Utf8) lf →
  Forall (λ c, sample_type date_parser_parse sample_rows c.2 = TDate →
               is_Some (infer_datetime_format (series_cells c.2))) lf →
  clean_frame date_parser_parse sample_rows lf
  = inr (map sanitize_column_name (columns lf),
         unique (transpose (cast_table date_parser_parse sample_rows lf)))
  ∧ (∀ t fmt c, t ≠ TDate → cast_cell t fmt c = cast_cell t None c)
  ∧ (∀ fmt s, parse_i64 (remove_char 44 s) = None →
       cast_cell TInt fmt (Some s) = CNull)
  ∧ (∀ fmt s, parse_f64 (remove_char 44 s) = None →
       cast_cell TFloat fmt (Some s) = CNull)
  ∧ (∀ f s, parse_datetime f s = None →
       cast_cell TDate (Some f) (Some s) = CNull)
  ∧ (∀ fmt, cast_cell TInt fmt (Some (py "abc")) = CNull).
Proof.
  intros Hnd Hutf8 Hfmt. split_and!.
  - apply clean_frame_inr. split_and!; [done | | done | done].
    apply Forall_forall. intros c Hc. rewrite Forall_forall in Hutf8, Hfmt.
    split; [by apply Hutf8 | by apply Hfmt].
  - intros t fmt c Ht. by destruct t.
  - intros fmt s Hs. simpl. by rewrite Hs.
  - intros fmt s Hs. simpl. by rewrite Hs.
  - intros f s Hs. simpl. by rewrite Hs.
  - intros fmt. cbn. change (remove_char 44 (py "abc")) with (py "abc").
    by rewrite parse_i64_abc.
Qed.


(** C8 (amended). On a run that reaches the write and casts no value to a
    NaN, the rows of the cleaned output are the distinct rows of the cast
    table, each once: a permutation of the rows of the cast table in
    first-seen order with later duplicates removed. The order itself is
    the one [unique()] returns, which the source does not ask to be the
    input order. *)
Theorem clean_frame_distinct_rows (sample_rows : nat) (lf : frame series)
    (header : list str) (rows : list (list pcell)) :
  clean_frame date_parser_parse sample_rows lf = inr (header, rows) →
  nan_free (transpose (cast_table date_parser_parse sample_rows lf)) →
  Forall (λ c, series_dtype c.2 = Utf8) lf
  ∧ rows = unique (transpose (cast_table date_parser_parse sample_rows lf))
  ∧ NoDup rows
  ∧ rows ≡ₚ dedup_first (transpose (cast_table date_parser_parse sample_rows lf)).
Proof.
  intros (_ & Hall & _ & ->)%clean_frame_inr Hnan. split_and!.
  - eapply Forall_impl; [exact Hall|]. by intros c [? _].
  - done.
  - by apply unique_NoDup.
  - by apply unique_Permutation.
Qed.

(** C9 (amended). A run that fails before the write, or whose destination
    cannot be opened, leaves the file system as it was. The output is
    written straight to the destination: a write that completes leaves the
    complete output there and the run returns; a write that stops leaves
    there the part written so far, whether the engine raises the failure
    (the run ends with it) or not (the run returns as after a complete
    write). *)
Theorem clean_csv_destination (fs : filesystem) (input_path output_path : str)
    (sample_rows : nat) (fault : io_fault) :
  let out := clean_csv date_parser_parse fs input_path output_path sample_rows fault in
  (∀ e, out.1 = inl e → e ≠ OSError → out.2 = fs)
  ∧ (fault = OpenFault → out.1 ≠ inr () ∧ out.2 = fs)
  ∧ (out.1 = inr () ∨ out.1 = inl OSError → ∃ bytes lf header rows,
       fs !! input_path = Some bytes ∧ read_csv bytes = Some lf
       ∧ clean_frame date_parser_parse sample_rows lf = inr (header, rows)
       ∧ (fault = NoFault → out = (inr (), <[output_path := to_csv header rows]> fs))
       ∧ (fault = OpenFault → out = (inl OSError, fs))
       ∧ (∀ n, fault = WriteFault n true →
            out = (inl OSError, <[output_path := take n (to_csv header rows)]> fs))
       ∧ (∀ n, fault = WriteFault n false →
            out = (inr (), <[output_path := take n (to_csv header rows)]> fs)))
  ∧ (fault = NoFault → out.1 = inr () → ∃ bytes lf header rows,
       fs !! input_path = Some bytes ∧ read_csv bytes = Some lf
       ∧ clean_frame date_parser_parse sample_rows lf = inr (header, rows)
       ∧ out.2 = <[output_path := to_csv header rows]> fs).
Proof.
  cbv zeta. unfold clean_csv.
  destruct (fs !! input_path) as [bytes|] eqn:Hin; simpl;
    [|split_and!; [done | by intros -> | by intros [?|?] | done]].
  destruct (read_csv bytes) as [lf|] eqn:Hlf; simpl;
    [|split_and!; [done | by intros -> | by intros [?|?] | done]].
  destruct (clean_frame _ _ lf) as [e|[header rows]] eqn:Hcf; simpl.
  { split_and!; [done | by intros -> | | done]. intros [?|[= ->]]; [done|].
    by apply clean_frame_not_OSError in Hcf. }
  unfold write_csv. split_and!.
  - intros e He Hne. destruct fault as [| |n []]; simplify_eq/=; done.
  - by intros ->.
  - intros _. exists bytes, lf, header, rows. split_and!; [done..| | | |].
    + by intros ->.
    + by intros ->.
    + by intros n ->.
    + by intros n ->.
  - intros -> _. by exists bytes, lf, header, rows.
Qed.

End PipelineClaims.

(** * Examples, witnesses and counterexamples *)

(** C4 on the label [ Join-Date ] with its surrounding spaces. *)
Lemma sanitize_column_name_identifier_witness :
  Forall (λ c, @isalnum ucd c = true → (c < 128)%N) (py " Join-Date ")
  ∧ @sanitize_column_name cpython (py " Join-Date ") = py "join_date"
  ∧ re_match ident_re (@sanitize_column_name cpython (py " Join-Date ")) = true.
Proof.
  assert (Forall (λ c, @isalnum ucd c = true → (c < 128)%N) (py " Join-Date "))
    as Hx by (repeat constructor).
  split; [exact Hx|]. split; [reflexivity|].
  exact (proj1 (proj2 (@sanitize_column_name_identifier cpython (py " Join-Date ") Hx))).
Defined.

(** C4, counterexample: U+00E9 is a word character; it is kept, and the
    result is outside [[a-z0-9_]]. *)
Lemma sanitize_column_name_keeps_non_ascii :
  @sanitize_column_name cpython [233%N] = [233%N]
  ∧ re_match ident_re (@sanitize_column_name cpython [233%N]) = false.
Proof. by vm_compute. Qed.

(** C5 on a label with a letter beyond ASCII, a double space and a
    trailing underscore. *)
Lemma sanitize_column_name_idempotent_witness :
  Forall (λ c, @isword cpython c = true)
    (@sanitize_column_name cpython (py "CAF" ++ [201%N] ++ py "  Bar_"))
  ∧ @sanitize_column_name cpython (py "CAF" ++ [201%N] ++ py "  Bar_")
    = py "caf" ++ [233%N] ++ py "_bar"
  ∧ @sanitize_column_name cpython
      (@sanitize_column_name cpython (py "CAF" ++ [201%N] ++ py "  Bar_"))
    = @sanitize_column_name cpython (py "CAF" ++ [201%N] ++ py "  Bar_").
Proof.
  assert (Forall (λ c, @isword cpython c = true)
            (@sanitize_column_name cpython (py "CAF" ++ [201%N] ++ py "  Bar_")))
    as Hx by (apply (bool_decide_unpack _); by vm_compute).
  split; [exact Hx|]. split; [reflexivity|].
  exact (@sanitize_column_name_idempotent cpython ucd_case
           (py "CAF" ++ [201%N] ++ py "  Bar_") Hx).
Defined.

(** C5, counterexample: U+0130 lowercases to U+0069 U+0307, and U+0307 is
    no word character, so a second pass changes the name. *)
Lemma sanitize_column_name_not_idempotent :
  @sanitize_column_name cpython [304%N] = [105%N; 775%N]
  ∧ @sanitize_column_name cpython (@sanitize_column_name cpython [304%N]) = [105%N].
Proof. by vm_compute. Qed.

(** Nine integer strings and one other string among ten values: 'int',
    whatever the date parser says; 89 and 11 among a hundred: not 'int'. *)
Example infer_column_nine_of_ten (date_parser_parse : str → bool) :
  @infer_column cpython date_parser_parse
    (replicate 9 (Some (py "7")) ++ [Some (py "abc")]) = TInt.
Proof.
  rewrite (@infer_column_unfold cpython), decide_type_spec.
  destruct (@tally_loop_counts cpython date_parser_parse
    (take SAMPLE_ROWS (@non_null cpython (replicate 9 (Some (py "7")) ++ [Some (py "abc")]))))
    as (Hi & _). rewrite Hi. by vm_compute.
Qed.

Example infer_column_89_of_100 (date_parser_parse : str → bool) :
  @infer_column cpython date_parser_parse
    (replicate 89 (Some (py "7")) ++ replicate 11 (Some (py "abc"))) ≠ TInt.
Proof.
  rewrite (@infer_column_unfold cpython), decide_type_spec.
  destruct (@tally_loop_counts cpython date_parser_parse
    (take SAMPLE_ROWS
      (@non_null cpython (replicate 89 (Some (py "7")) ++ replicate 11 (Some (py "abc"))))))
    as (Hi & _). rewrite Hi.
  rewrite bool_decide_eq_false_2; [repeat case_bool_decide; done|].
  vm_compute. intros [_ Hle]. lia.
Qed.

(** C3, counterexample: "inf" and "nan" are float successes; a column of
    them is classified 'float'. *)
Lemma try_float_accepts_inf_nan :
  @try_float cpython (py "inf") = true
  ∧ @py_float cpython (py "inf") = Some FInfinity
  ∧ @try_float cpython (py "nan") = true
  ∧ @py_float cpython (py "nan") = Some FNaN
  ∧ float_ok (@tally_value cpython (λ _, false) tally0 (py "inf")) = 1
  ∧ @infer_column cpython (λ _, false) [Some (py "inf"); Some (py "nan")] = TFloat.
Proof. by vm_compute. Qed.

(** [float] skips the whitespace of C at either end, and not the
    separators U+001C..U+001F, which [str.strip] removes: 1.5 followed by
    U+001C and a comma loses its comma only and is no float, while 1.5
    followed by a no-break space and a comma is one. *)
Example try_float_whitespace :
  @try_float cpython (@strip cpython (py "1.5" ++ [28; 44]%N)) = false
  ∧ @try_float cpython (@strip cpython (py "1.5" ++ [160; 44]%N)) = true
  ∧ @try_float cpython (@strip cpython (py " 1.5" ++ [28]%N)) = true.
Proof. by vm_compute. Qed.

(** C10 on a column of years, with a date parser that accepts every
    string. *)
Lemma integer_values_skip_date_parse_witness :
  let ser := [Some (py "2021"); Some (py "2022")] in
  let vs := take SAMPLE_ROWS (@non_null cpython ser) in
  let t := @tally_loop cpython (λ _, true) vs in
  Forall (λ v, @try_int cpython (@strip cpython v) = true) vs
  ∧ int_ok t = 2 ∧ float_ok t = 2 ∧ date_ok t = 0 ∧ date_calls t = []
  ∧ @infer_column cpython (λ _, true) ser ≠ TDate.
Proof.
  assert (Forall (λ v, @try_int cpython (@strip cpython v) = true)
            (take SAMPLE_ROWS (@non_null cpython [Some (py "2021"); Some (py "2022")])))
    as Hall by (by repeat constructor).
  split; [exact Hall|].
  exact (proj2 (@integer_values_skip_date_parse cpython (λ _, true)
                  [Some (py "2021"); Some (py "2022")]) Hall).
Defined.

(** The end-to-end run of the example table. *)
Example clean_csv_example :
  @clean_csv cpython (engine false) example_date_parse example_fs
    (py "in.csv") (py "out.csv") SAMPLE_ROWS NoFault
  = (inr (), <[py "out.csv" := example_out]> example_fs).
Proof. by vm_compute. Qed.

(** C1 on 1112 values "1": the values examined are all integers, so the
    decision over the values examined is 'int', and the column is not
    classified 'int'. *)
Lemma infer_column_decision_witness :
  1111 < length (@non_null cpython (replicate 1112 (Some (py "1"))))
  ∧ Forall (λ v, @try_int cpython (@strip cpython v) = true)
      (take SAMPLE_ROWS (@non_null cpython (replicate 1112 (Some (py "1")))))
  ∧ @infer_column cpython (λ _, false) (replicate 1112 (Some (py "1"))) ≠ TInt.
Proof.
  assert (1111 < length (@non_null cpython (replicate 1112 (Some (py "1")))))
    as Hlen by (apply Nat.ltb_lt; by vm_compute).
  assert (Forall (λ v, @try_int cpython (@strip cpython v) = true)
            (take SAMPLE_ROWS (@non_null cpython (replicate 1112 (Some (py "1"))))))
    as Hall by (apply (bool_decide_unpack _); by vm_compute).
  split; [exact Hlen|]. split; [exact Hall|].
  apply (proj1 (proj2 (proj2 (proj2 (proj2
    (@infer_column_decision cpython (λ _, false)
       (replicate 1112 (Some (py "1")))))))) Hlen).
  rewrite filter_all by by apply Forall_fmap. by rewrite length_fmap.
Defined.

(** C6 on a column of nine integers and a word, read as strings: it is
    inferred 'int' and the word is cast to a null. *)
Lemma clean_frame_cast_per_cell_witness :
  NoDup (map (@sanitize_column_name cpython) [py "n"])
  ∧ @clean_frame cpython (engine false) example_date_parse SAMPLE_ROWS
      [(py "n", Series Utf8 (replicate 9 (Some (py "7")) ++ [Some (py "abc")]))]
    = inr ([py "n"], [[CInt 7]; [CNull]]).
Proof.
  assert (NoDup (map (@sanitize_column_name cpython) [py "n"])) as Hnd
    by (apply (bool_decide_unpack _); by vm_compute).
  split; [exact Hnd|].
  rewrite (proj1 (@clean_frame_cast_per_cell cpython (engine false)
                    example_date_parse SAMPLE_ROWS
                    [(py "n", Series Utf8
                                (replicate 9 (Some (py "7")) ++ [Some (py "abc")]))]
                    Hnd ltac:(by repeat constructor)
                    ltac:(repeat constructor; intros Hd; by vm_compute in Hd))).
  by vm_compute.
Defined.

(** C6, counterexample: in a 'date' column the same raw cell is parsed or
    nulled according to the format inferred from the cells before it; a
    column inferred 'date' for which the engine infers no format aborts
    the run, and so does a column that is not read as strings. *)
Lemma clean_frame_cast_not_per_cell :
  @clean_frame cpython (engine false) example_date_parse SAMPLE_ROWS
    [(py "d", Series Utf8 [Some (py "2021-01-05 10:00:00");
                           Some (py "05/01/2021 10:00:00")])]
  = inr ([py "d"], [[CDatetime (2021, 1, 5, (10, 0, 0))%Z]; [CNull]])
  ∧ @clean_frame cpython (engine false) example_date_parse SAMPLE_ROWS
      [(py "d", Series Utf8 [Some (py "05/01/2021 11:00:00");
                             Some (py "05/01/2021 10:00:00")])]
    = inr ([py "d"], [[CDatetime (2021, 1, 5, (11, 0, 0))%Z];
                      [CDatetime (2021, 1, 5, (10, 0, 0))%Z]])
  ∧ @clean_frame cpython (engine false) (λ _, true) SAMPLE_ROWS
      [(py "d", Series Utf8 [Some (py "5 Jan 2021")])]
    = inl ComputeError
  ∧ @clean_frame cpython (engine false) example_date_parse SAMPLE_ROWS
      [(py "b", Series Boolean [Some (py "True"); Some (py "False")])]
    = inl SchemaError.
Proof. by vm_compute. Qed.

(** A column that is not read as strings aborts the run, whatever its
    values: the example table with an empty cell in its column of ages. *)
Example clean_csv_example_int_column :
  option_map (map snd) (@read_csv (engine false) example_csv_int)
  = Some [Series Utf8 [Some (py "Alice"); Some (py "alice"); Some (py "Alice");
                       Some (py "Bob")];
          Series Int64 [Some (py "30"); Some (py "30"); Some (py "30"); None];
          Series Utf8 [Some (py "2021-01-05"); Some (py "2021-01-05");
                       Some (py "2021-01-05"); Some (py "2021-02-01")]]
  ∧ @clean_csv cpython (engine false) example_date_parse
      {[ py "in.csv" := example_csv_int ]} (py "in.csv") (py "out.csv")
      SAMPLE_ROWS NoFault
    = (inl SchemaError, {[ py "in.csv" := example_csv_int ]}).
Proof. by vm_compute. Qed.


(** Two rows equal in every cell, nulls included, are one row of the
    output. *)
Example unique_collapses_rows_with_nulls :
  @unique (engine false) [[CNull; CInt 1]; [CNull; CInt 1]] = [[CNull; CInt 1]].
Proof. reflexivity. Qed.

(** C8 on a one-column table with the rows b, a, b. *)
Lemma clean_frame_distinct_rows_witness :
  @clean_frame cpython (engine false) example_date_parse SAMPLE_ROWS
    [(py "x", Series Utf8 [Some (py "b"); Some (py "a"); Some (py "b")])]
  = inr ([py "x"], [[CStr (py "b")]; [CStr (py "a")]])
  ∧ ([[CStr (py "b")]; [CStr (py "a")]] : list (list eng_cell))
    ≡ₚ dedup_first
         (transpose (@cast_table cpython (engine false) example_date_parse
            SAMPLE_ROWS
            [(py "x", Series Utf8 [Some (py "b"); Some (py "a"); Some (py "b")])])).
Proof.
  assert (@clean_frame cpython (engine false) example_date_parse SAMPLE_ROWS
            [(py "x", Series Utf8 [Some (py "b"); Some (py "a"); Some (py "b")])]
          = inr ([py "x"], [[CStr (py "b")]; [CStr (py "a")]])) as Hrun
    by by vm_compute.
  split; [exact Hrun|].
  apply (@clean_frame_distinct_rows cpython (engine false) example_date_parse
           SAMPLE_ROWS _ _ _ Hrun).
  apply Forall_forall; intros r _; apply Forall_forall; by intros [] _.
Defined.

(** C8, counterexample: an engine whose [unique] returns the distinct rows
    last-seen first gives the rows a, b for the input rows b, a, b, whose
    first-seen order is b, a. *)
Lemma clean_frame_rows_not_first_seen :
  @clean_frame cpython (engine true) example_date_parse SAMPLE_ROWS
    [(py "x", Series Utf8 [Some (py "b"); Some (py "a"); Some (py "b")])]
  = inr ([py "x"], [[CStr (py "a")]; [CStr (py "b")]])
  ∧ dedup_first ([[CStr (py "b")]; [CStr (py "a")]; [CStr (py "b")]] : list (list eng_cell))
    = [[CStr (py "b")]; [CStr (py "a")]].
Proof. by vm_compute. Qed.

(** C9 on the example table, without a fault. *)
Lemma clean_csv_destination_witness :
  (@clean_csv cpython (engine false) example_date_parse example_fs
     (py "in.csv") (py "out.csv") SAMPLE_ROWS NoFault).1 = inr ()
  ∧ ∃ bytes lf header rows,
      example_fs !! py "in.csv" = Some bytes ∧ @read_csv (engine false) bytes = Some lf
      ∧ @clean_frame cpython (engine false) example_date_parse SAMPLE_ROWS lf
        = inr (header, rows)
      ∧ (@clean_csv cpython (engine false) example_date_parse example_fs
           (py "in.csv") (py "out.csv") SAMPLE_ROWS NoFault).2
        = <[py "out.csv" := @to_csv (engine false) header rows]> example_fs.
Proof.
  assert ((@clean_csv cpython (engine false) example_date_parse example_fs
             (py "in.csv") (py "out.csv") SAMPLE_ROWS NoFault).1 = inr ()) as Hok
    by (by vm_compute).
  split; [exact Hok|].
  exact (proj2 (proj2 (proj2 (@clean_csv_destination cpython (engine false)
           example_date_parse example_fs (py "in.csv") (py "out.csv")
           SAMPLE_ROWS NoFault))) eq_refl Hok).
Defined.

(** C9, counterexample: a write that stops after 7 bytes and raises ends
    the run with an error and leaves 7 bytes at the destination, neither
    the older file nor the complete output, and the upload handler answers
    500 and leaves the partial file in place; a write that stops after the
    header and does not raise lets the run return with the header alone at
    the destination, and the upload handler answers with that file. A
    destination that cannot be opened keeps the older file. *)
Lemma clean_csv_partial_output :
  @clean_csv cpython (engine false) example_date_parse example_fs
    (py "in.csv") (py "out.csv") SAMPLE_ROWS (WriteFault 7 true)
  = (inl OSError, <[py "out.csv" := py "first_n"]> example_fs)
  ∧ example_fs !! py "out.csv" = Some (py "old")
  ∧ take 7 example_out = py "first_n"
  ∧ @clean_csv cpython (engine false) example_date_parse example_fs
      (py "in.csv") (py "out.csv") SAMPLE_ROWS (WriteFault 25 false)
    = (inr (), <[py "out.csv" := py ("first_name,age,join_date" ++ LF)]> example_fs)
  ∧ (let r := @upload cpython (engine false) example_date_parse ∅
               (py "/tmp") (py "k3x") (py "t.csv") example_csv None
               (WriteFault 7 true) in
     r.1 = HTTPException 500
     ∧ r.2 !! py "/tmp/polars_cleaned/cleaned_t.csv" = Some (py "first_n"))
  ∧ (let r := @upload cpython (engine false) example_date_parse ∅
               (py "/tmp") (py "k3x") (py "t.csv") example_csv None
               (WriteFault 25 false) in
     r.1 = FileResponse (py "/tmp/polars_cleaned/cleaned_t.csv")
     ∧ r.2 !! py "/tmp/polars_cleaned/cleaned_t.csv"
       = Some (py ("first_name,age,join_date" ++ LF)))
  ∧ @clean_csv cpython (engine false) example_date_parse example_fs
      (py "in.csv") (py "out.csv") SAMPLE_ROWS OpenFault
    = (inl OSError, example_fs).
Proof. by vm_compute. Qed.

(** * Further properties *)

(** ** sanitize_column_name *)

Lemma lstrip_by_all p s : Forall (λ c, p c = true) s → lstrip_by p s = [].
Proof. induction 1 as [|c s Hc _ IH]; simpl; [done|]. by rewrite Hc. Qed.

Lemma lstrip_by_app_l p ws s :
  Forall (λ c, p c = true) ws → lstrip_by p (ws ++ s) = lstrip_by p s.
Proof. induction 1 as [|c ws Hc _ IH]; simpl; [done|]. by rewrite Hc. Qed.

Lemma rstrip_by_app_r p s ws :
  Forall (λ c, p c = true) ws → rstrip_by p (s ++ ws) = rstrip_by p s.
Proof.
  intros Hws. unfold rstrip_by. rewrite reverse_app, lstrip_by_app_l; [done|].
  by apply Forall_reverse.
Qed.

Lemma strip_by_app p ws1 s ws2 :
  Forall (λ c, p c = true) ws1 → Forall (λ c, p c = true) ws2 →
  strip_by p (ws1 ++ s ++ ws2) = strip_by p s.
Proof.
  intros H1 H2. unfold strip_by. rewrite lstrip_by_app_l by done.
  induction s as [|c s IH]; simpl.
  - by rewrite lstrip_by_all.
  - destruct (p c) eqn:Hc; [done|]. by apply (rstrip_by_app_r p (c :: s) ws2).
Qed.

Lemma re_sub_run_all p min run s :
  Forall (λ c, p c = true) s → re_sub_run p min run s = emit_run min (run ++ s).
Proof.
  intros Hs. revert run. induction Hs as [|c s Hc _ IH]; intros run; simpl.
  - by rewrite app_nil_r.
  - by rewrite Hc, IH, <- app_assoc.
Qed.

Section SanitizerProperties.
Context `{Python}.

(** X1. A label without any word character (empty, blank, punctuation
    only) is given the placeholder name "col". *)
Theorem sanitize_column_name_placeholder (x : str) :
  Forall (λ c, isword c = false) x → sanitize_column_name x = py "col".
Proof.
  intros Hx. unfold sanitize_column_name.
  rewrite (re_sub_run_all _ 1 [] (strip x)).
  2:{ apply strip_by_Forall. eapply Forall_impl; [exact Hx|].
      intros c Hc. simpl. by rewrite Hc. }
  assert (lower [] = []) as Hlow by (by rewrite lower_ascii).
  assert (strip_by is_underscore (re_sub_run is_underscore 2 [] []) = [])
    as H0 by (by vm_compute).
  assert (strip_by is_underscore (re_sub_run is_underscore 2 [] [underscore]) = [])
    as H1 by (by vm_compute).
  destruct (emit_run_one ([] ++ strip x)) as [-> | ->].
  - rewrite H0, Hlow. by case_decide.
  - rewrite H1, Hlow. by case_decide.
Qed.

(** X2. Whitespace around a label does not matter: two labels that differ
    only in surrounding whitespace get the same name. *)
Theorem sanitize_column_name_surrounding_whitespace (ws1 x ws2 : str) :
  Forall (λ c, isspace c = true) ws1 → Forall (λ c, isspace c = true) ws2 →
  sanitize_column_name (ws1 ++ x ++ ws2) = sanitize_column_name x.
Proof.
  intros H1 H2. unfold sanitize_column_name, strip. by rewrite strip_by_app.
Qed.

End SanitizerProperties.

Lemma sanitize_column_name_placeholder_witness :
  Forall (λ c, @isword cpython c = false) (py " -- $ ")
  ∧ @sanitize_column_name cpython (py " -- $ ") = py "col".
Proof.
  assert (Forall (λ c, @isword cpython c = false) (py " -- $ ")) as Hx
    by (by repeat constructor).
  split; [exact Hx|]. exact (@sanitize_column_name_placeholder cpython _ Hx).
Defined.

Lemma sanitize_column_name_surrounding_whitespace_witness :
  @sanitize_column_name cpython (py "  " ++ py "Name" ++ py " ")
  = @sanitize_column_name cpython (py "Name").
Proof.
  apply (@sanitize_column_name_surrounding_whitespace cpython);
    by repeat constructor.
Defined.

Lemma lstrip_by_Forall (P : codepoint → Prop) p s :
  Forall P s → Forall P (lstrip_by p s).
Proof.
  destruct (lstrip_by_suffix p s) as [a Ha]. rewrite Ha at 1.
  by intros [_ ?]%Forall_app.
Qed.

Lemma lstrip_by_map p (f : codepoint → codepoint) s :
  Forall (λ c, p (f c) = p c) s → lstrip_by p (map f s) = map f (lstrip_by p s).
Proof.
  induction 1 as [|c s Hc _ IH]; simpl; [done|].
  rewrite Hc. by destruct (p c).
Qed.

Lemma rstrip_by_map p (f : codepoint → codepoint) s :
  Forall (λ c, p (f c) = p c) s → rstrip_by p (map f s) = map f (rstrip_by p s).
Proof.
  intros Hs. unfold rstrip_by.
  change (map f s) with (f <$> s). rewrite <- fmap_reverse.
  change (f <$> reverse s) with (map f (reverse s)).
  rewrite lstrip_by_map by by apply Forall_reverse.
  change (map f (lstrip_by p (reverse s))) with (f <$> lstrip_by p (reverse s)).
  by rewrite <- fmap_reverse.
Qed.

Lemma strip_by_map p (f : codepoint → codepoint) s :
  Forall (λ c, p (f c) = p c) s → strip_by p (map f s) = map f (strip_by p s).
Proof.
  intros Hs. unfold strip_by. rewrite lstrip_by_map by done.
  apply rstrip_by_map. by apply lstrip_by_Forall.
Qed.

Lemma re_sub_run_map p min (f : codepoint → codepoint) run s :
  f underscore = underscore → Forall (λ c, p (f c) = p c) s →
  re_sub_run p min (map f run) (map f s) = map f (re_sub_run p min run s).
Proof.
  intros Hf Hs.
  assert (∀ r, emit_run min (map f r) = map f (emit_run min r)) as Hemit.
  { intros r. unfold emit_run. rewrite length_map.
    case_decide; [|done]. simpl. by rewrite Hf. }
  revert run. induction Hs as [|c s Hc _ IH]; intros run; simpl; [apply Hemit|].
  rewrite Hc. destruct (p c).
  - rewrite <- IH. by rewrite map_app.
  - rewrite map_app, Hemit. simpl. f_equal. f_equal. apply (IH []).
Qed.

Lemma ascii_isspace_lower c : ascii_isspace (ascii_lower c) = ascii_isspace c.
Proof.
  unfold ascii_lower. destruct (ascii_isupper c) eqn:Hu; [|done].
  apply Bool.eq_true_iff_eq. revert Hu. ascii_true. lia.
Qed.

Lemma ascii_isword_lower c : ascii_isword (ascii_lower c) = ascii_isword c.
Proof.
  unfold ascii_lower. destruct (ascii_isupper c) eqn:Hu; [|done].
  apply Bool.eq_true_iff_eq. revert Hu. ascii_true. lia.
Qed.

Section SanitizerCase.
Context `{Python}.

(** X3. On ASCII labels the name does not depend on letter case: a label
    and its lowercase form get the same name. *)
Theorem sanitize_column_name_case_insensitive (x : str) :
  Forall (λ c, (c < 128)%N) x →
  sanitize_column_name (map ascii_lower x) = sanitize_column_name x.
Proof.
  intros Hx. unfold sanitize_column_name.
  set (s1 := strip x).
  set (s2 := re_sub_run (λ c, negb (isword c)) 1 [] s1).
  set (s3 := re_sub_run is_underscore 2 [] s2).
  set (s4 := strip_by is_underscore s3).
  assert (Forall (λ c, (c < 128)%N) s1) as H1 by by apply strip_by_Forall.
  assert (Forall (λ c, (c < 128)%N) s2) as H2.
  { apply Forall_forall. intros c [->|[Hc _]]%re_sub_run_one_elem; [done|].
    rewrite Forall_forall in H1. by apply H1. }
  assert (Forall (λ c, (c < 128)%N) s3) as H3.
  { apply Forall_forall. intros c [->|Hc]%re_sub_run_underscore_elem; [done| |done].
    rewrite Forall_forall in H2. by apply H2. }
  assert (Forall (λ c, (c < 128)%N) s4) as H4 by by apply strip_by_Forall.
  assert (strip (map ascii_lower x) = map ascii_lower s1) as ->.
  { apply strip_by_map. eapply Forall_impl; [exact Hx|]. intros c Hc. simpl.
    rewrite !isspace_ascii by auto using ascii_lower_lt. apply ascii_isspace_lower. }
  rewrite (re_sub_run_map _ 1 ascii_lower [] s1); [|done|].
  2:{ eapply Forall_impl; [exact H1|]. intros c Hc. simpl. f_equal.
      rewrite !isword_ascii by auto using ascii_lower_lt. apply ascii_isword_lower. }
  fold s2. rewrite (re_sub_run_map _ 2 ascii_lower [] s2); [|done|].
  2:{ apply Forall_forall. intros c _. apply Bool.eq_true_iff_eq.
      unfold is_underscore. rewrite !N.eqb_eq. apply ascii_lower_underscore. }
  fold s3. rewrite strip_by_map.
  2:{ apply Forall_forall. intros c _. apply Bool.eq_true_iff_eq.
      unfold is_underscore. rewrite !N.eqb_eq. apply ascii_lower_underscore. }
  fold s4. rewrite (lower_ascii (map ascii_lower s4)).
  2:{ apply Forall_map. eapply Forall_impl; [exact H4|]. apply ascii_lower_lt. }
  rewrite (lower_ascii s4) by done. rewrite map_map.
  by rewrite (map_ext _ ascii_lower ascii_lower_idemp).
Qed.

End SanitizerCase.

Lemma sanitize_column_name_case_insensitive_witness :
  @sanitize_column_name cpython (py "first name")
  = @sanitize_column_name cpython (py "First Name").
Proof.
  apply (@sanitize_column_name_case_insensitive cpython (py "First Name")).
  by repeat constructor.
Defined.

(** ** The integer check *)

Lemma lstrip_by_split p s :
  ∃ a, s = a ++ lstrip_by p s ∧ Forall (λ c, p c = true) a.
Proof.
  induction s as [|c s (a & Ha & Hp)]; simpl; [by exists []|].
  destruct (p c) eqn:Hc.
  - exists (c :: a). split; [by rewrite Ha at 1 | by constructor].
  - by exists [].
Qed.

Lemma ascii_isdigit_not_sign c : ascii_isdigit c = true → is_sign c = false.
Proof.
  intros Hc. destruct (is_sign c) eqn:Hs; [|done]. revert Hc Hs.
  unfold is_sign. ascii_true. lia.
Qed.

Lemma ascii_isdigit_not_space c : ascii_isdigit c = true → ascii_isspace c = false.
Proof.
  intros Hc. destruct (ascii_isspace c) eqn:Hs; [|done]. revert Hc Hs.
  ascii_true. lia.
Qed.

Lemma ascii_isdigit_lt c : ascii_isdigit c = true → (c < 128)%N.
Proof. ascii_true. lia. Qed.

Section IntegerCheck.
Context `{Python}.

Lemma isspace_number_false c : isspace c = false → isspace_number c = false.
Proof. unfold isspace_number. by intros ->. Qed.

Lemma Matches_digitpart_head dp :
  Matches digitpart_re dp → ∃ d rest, dp = d :: rest ∧ isdecimal d = true.
Proof.
  unfold digitpart_re, digit_re.
  intros (s1 & s2 & -> & (d & -> & Hd)%Matches_Chr_inv & _)%Matches_Cat_inv. eauto.
Qed.

Lemma Matches_digitpart_digits ds :
  ds ≠ [] → Forall (λ c, isdecimal c = true) ds → Matches digitpart_re ds.
Proof.
  intros Hne Hds. destruct ds as [|d rest]; [done|].
  apply Forall_cons in Hds as [Hd Hrest]. unfold digitpart_re.
  apply (MCat _ _ [d] rest); [by constructor|].
  clear Hne Hd. induction Hrest as [|c rest Hc _ IH]; [constructor|].
  apply (MStarS _ [c] rest); [|done].
  apply (MCat _ _ [] [c]); [apply MAltL; constructor | by constructor].
Qed.

Lemma signed_digits_try_int (s : str) : signed_digits s → try_int s = true.
Proof.
  intros (sgn & ds & -> & Hsgn & Hne & Hds & Hlim).
  assert (Forall (λ c, (c < 128)%N) ds) as Hascii
    by (eapply Forall_impl; [exact Hds | apply ascii_isdigit_lt]).
  assert (Forall (λ c, isdecimal c = true) ds) as Hdec.
  { apply Forall_forall. intros c Hc. rewrite Forall_forall in Hds, Hascii.
    rewrite isdecimal_ascii; auto. }
  assert (Forall (λ c, is_sign c = true ∧ isspace c = false ∧ isdecimal c = false
                       ∧ c ≠ 46%N) sgn) as Hsg.
  { destruct Hsgn as [->|[->| ->]]; [constructor|..];
      (apply Forall_cons; split; [|constructor]);
      (split_and!; [done | by rewrite isspace_ascii | by rewrite isdecimal_ascii | done]). }
  unfold try_int. rewrite !andb_true_iff. split_and!.
  - apply negb_true_iff, bool_decide_eq_false. intros [Hin|Hin]%elem_of_app.
    + rewrite Forall_forall in Hsg. by destruct (Hsg _ Hin) as (_ & _ & _ & ?).
    + rewrite Forall_forall in Hds. specialize (Hds _ Hin). by vm_compute in Hds.
  - assert (lstrip_by (λ c, (c =? 43)%N || (c =? 45)%N) (sgn ++ ds) = ds) as ->.
    { rewrite lstrip_by_app_l.
      - apply lstrip_by_id. intros c Hc. apply head_Some_elem_of in Hc.
        rewrite Forall_forall in Hds. by apply (ascii_isdigit_not_sign c), Hds.
      - eapply Forall_impl; [exact Hsg|]. by intros c [? _]. }
    unfold str_isdigit. destruct ds as [|d rest]; [done|].
    apply forallb_forall. intros c Hc%list_elem_of_In.
    rewrite Forall_forall in Hds, Hascii. rewrite isdigit_ascii; auto.
  - unfold int_accepts.
    assert (strip_by isspace_number (sgn ++ ds) = sgn ++ ds) as ->.
    { apply strip_by_id; intros c Hc; apply isspace_number_false.
      - assert (c ∈ sgn ∨ head ds = Some c) as [Hin|Hin].
        { destruct sgn as [|c0 sgn]; [by right | left]. simpl in Hc.
          injection Hc as ->. by left. }
        + rewrite Forall_forall in Hsg. by destruct (Hsg _ Hin) as (_ & ? & _).
        + apply head_Some_elem_of in Hin. rewrite Forall_forall in Hds, Hascii.
          rewrite isspace_ascii by auto. by apply ascii_isdigit_not_space, Hds.
      - rewrite last_app in Hc. destruct (last ds) as [d|] eqn:Hd.
        + injection Hc as <-. apply last_Some_elem_of in Hd.
          rewrite Forall_forall in Hds, Hascii.
          rewrite isspace_ascii by auto. by apply ascii_isdigit_not_space, Hds.
        + apply last_None in Hd. congruence. }
    rewrite andb_true_iff. split.
    + apply re_match_spec. unfold integer_re. apply MCat.
      * apply Matches_sign. tauto.
      * by apply Matches_digitpart_digits.
    + assert (length (filter (λ c, isdecimal c = true) (sgn ++ ds)) = length ds)
        as Hlen.
      { rewrite filter_app, (filter_none _ sgn), (filter_all _ ds); [done..|].
        eapply Forall_impl; [exact Hsg|]. intros c (_ & _ & Hc & _). by rewrite Hc. }
      apply orb_true_iff. destruct Hlim as [Hz|Hle]; [left|right];
        apply bool_decide_eq_true; [done|]. unfold str. by rewrite Hlen.
Qed.

Lemma first_non_match_unique (p : codepoint → bool) a b x y (u v : str) :
  Forall (λ c, p c = true) a → Forall (λ c, p c = true) b →
  p x = false → p y = false → a ++ x :: u = b ++ y :: v → a = b ∧ x :: u = y :: v.
Proof.
  intros Ha. revert b. induction Ha as [|c a Hc _ IH]; intros b Hb Hx Hy Heq.
  - destruct b as [|c' b]; [done|]. simpl in Heq. injection Heq as -> _.
    apply Forall_cons in Hb as [Hb _]. congruence.
  - destruct b as [|c' b]; simpl in Heq.
    + injection Heq as -> _. congruence.
    + injection Heq as -> Heq. apply Forall_cons in Hb as [_ Hb].
      destruct (IH b Hb Hx Hy Heq) as [-> ?]. done.
Qed.

Lemma is_sign_facts c :
  is_sign c = true → isdecimal c = false ∧ isspace c = false ∧ (c < 128)%N.
Proof.
  unfold is_sign. rewrite orb_true_iff, !N.eqb_eq.
  intros [->| ->]; by rewrite isdecimal_ascii, isspace_ascii.
Qed.

Lemma try_int_signed_digits (s : str) :
  Forall (λ c, (c < 128)%N) s → try_int s = true → signed_digits s.
Proof.
  intros Hascii. unfold try_int. rewrite !andb_true_iff. intros [[_ Hdig] Hacc].
  destruct (lstrip_by_split (λ c, (c =? 43)%N || (c =? 45)%N) s) as (a & Ha & Hsigns).
  set (ds := lstrip_by (λ c, (c =? 43)%N || (c =? 45)%N) s) in *.
  assert (Forall (λ c, (c < 128)%N) ds) as Hds_ascii by by apply lstrip_by_Forall.
  assert (ds ≠ [] ∧ Forall (λ c, ascii_isdigit c = true) ds) as [Hne Hds].
  { unfold str_isdigit in Hdig. destruct ds as [|d0 ds']; [done|]. split; [done|].
    rewrite forallb_forall in Hdig. apply Forall_forall. intros c Hc.
    rewrite Forall_forall in Hds_ascii. rewrite <- isdigit_ascii by auto.
    by apply Hdig, list_elem_of_In. }
  assert (strip_by isspace_number s = s) as Hstrip.
  { apply strip_by_id; intros c Hc; apply isspace_number_false.
    - rewrite Ha in Hc. destruct a as [|c0 a]; simpl in Hc.
      + apply head_Some_elem_of in Hc. rewrite Forall_forall in Hds, Hds_ascii.
        rewrite isspace_ascii by auto. by apply ascii_isdigit_not_space, Hds.
      + injection Hc as ->. apply Forall_cons in Hsigns as [Hc _].
        by apply is_sign_facts in Hc as (_ & ? & _).
    - rewrite Ha, last_app in Hc. destruct (last ds) as [d|] eqn:Hd.
      + injection Hc as <-. apply last_Some_elem_of in Hd.
        rewrite Forall_forall in Hds, Hds_ascii.
        rewrite isspace_ascii by auto. by apply ascii_isdigit_not_space, Hds.
      + apply last_None in Hd. congruence. }
  unfold int_accepts in Hacc. rewrite Hstrip in Hacc.
  apply andb_true_iff in Hacc as [Hre Hlim].
  apply re_match_spec in Hre. unfold integer_re in Hre.
  apply Matches_Cat_inv in Hre as (sgn & dp & Hs & Hsgn%Matches_sign & Hdp).
  apply Matches_digitpart_head in Hdp as (d & rest & -> & Hd).
  assert (is_sign d = false) as Hdsign.
  { apply ascii_isdigit_not_sign. rewrite <- isdecimal_ascii; [done|].
    rewrite Forall_forall in Hascii. apply Hascii. rewrite Hs. set_solver. }
  destruct ds as [|d0 ds'] eqn:Hdseq; [done|].
  assert (Forall (λ c, is_sign c = true) sgn) as Hsgn_all
    by (destruct Hsgn as [->|[->| ->]]; by repeat constructor).
  destruct (first_non_match_unique is_sign a sgn d0 d ds' rest) as [-> Hrest];
    [done | done | | done | by rewrite <- Ha, <- Hs |].
  { apply ascii_isdigit_not_sign. by apply Forall_cons in Hds as [? _]. }
  exists sgn, (d0 :: ds'). split_and!; [done..|].
  assert (length (filter (λ c, isdecimal c = true) (sgn ++ d0 :: ds'))
          = length (d0 :: ds')) as Hlen.
  { rewrite filter_app, (filter_none _ sgn), (filter_all _ (d0 :: ds')); [done| |].
    - apply Forall_forall. intros c Hc. rewrite Forall_forall in Hds, Hds_ascii.
      rewrite isdecimal_ascii; auto.
    - eapply Forall_impl; [exact Hsgn_all|]. intros c Hc%is_sign_facts.
      destruct Hc as [Hc _]. by rewrite Hc. }
  rewrite Ha in Hlim. unfold str in Hlim. rewrite Hlen in Hlim.
  apply orb_true_iff in Hlim as [Hz|Hle]; [left|right];
    by apply bool_decide_eq_true in Hz || apply bool_decide_eq_true in Hle.
Qed.

(** X4. On an ASCII value the integer check succeeds exactly for one
    optional sign followed by one or more digits (within the interpreter's
    limit on the number of digits, if it has one): a value with two signs,
    with a thousands separator or with a decimal point is no integer. *)
Theorem try_int_ascii (s : str) :
  Forall (λ c, (c < 128)%N) s →
  (try_int s = true ↔ signed_digits s).
Proof.
  intros Hascii. split; [by apply try_int_signed_digits | apply signed_digits_try_int].
Qed.

End IntegerCheck.

Lemma try_int_ascii_witness :
  @try_int cpython (py "-42") = true ∧ @try_int cpython (py "+-42") = false
  ∧ @signed_digits cpython (py "-42").
Proof.
  split; [reflexivity|]. split; [reflexivity|].
  apply (@try_int_ascii cpython (py "-42")); [by repeat constructor | reflexivity].
Defined.

(** ** infer_column_types_from_sample *)

Lemma filter_length_impl {A} (P Q : A → Prop) `{∀ x, Decision (P x)}
    `{∀ x, Decision (Q x)} (l : list A) :
  (∀ x, P x → Q x) → length (filter P l) ≤ length (filter Q l).
Proof.
  intros HPQ. induction l as [|x l IH]; [done|]. rewrite !filter_cons.
  destruct (decide (P x)) as [HP|HP].
  - rewrite decide_True by auto. simpl. lia.
  - case_decide; simpl; lia.
Qed.

Section ClassifierProperties.
Context `{Python}.
Variable date_parser_parse : str → bool.

Lemma non_null_cons (v : option str) (ser : list (option str)) :
  non_null (v :: ser)
  = match v with
    | Some x => if decide (strip x = []) then non_null ser else x :: non_null ser
    | None => non_null ser
    end.
Proof. destruct v as [x|]; [|done]. unfold non_null. cbn. by case_decide. Qed.

Lemma non_null_not_blank (ser : list (option str)) :
  Forall (λ x, strip x ≠ []) (non_null ser).
Proof.
  induction ser as [|v ser IH]; [constructor|]. rewrite non_null_cons.
  destruct v as [x|]; [|done]. case_decide; [done | by constructor].
Qed.

Lemma non_null_Some (l : list str) :
  Forall (λ x, strip x ≠ []) l → non_null (Some <$> l) = l.
Proof.
  induction 1 as [|x l Hx _ IH]; [done|].
  rewrite fmap_cons, non_null_cons, IH. by case_decide.
Qed.

(** X5. What the loop counts over the values it examines: the values that
    pass the integer check, those that pass it or the float parse, and those
    that fail it and pass the date parse. So the integer tally never exceeds
    the float tally, a value is never counted as both integer and date, and
    no tally exceeds the number of values examined, which is at most
    SAMPLE_ROWS. *)
Theorem tally_loop_invariants (ser : list (option str)) :
  let vs := take SAMPLE_ROWS (non_null ser) in
  let ss := strip <$> vs in
  let t := tally_loop date_parser_parse vs in
  int_ok t = length (filter (λ s, try_int s = true) ss)
  ∧ float_ok t = length (filter (λ s, try_int s = true ∨ try_float s = true) ss)
  ∧ date_ok t
    = length (filter (λ s, try_int s = false ∧ date_parser_parse s = true) ss)
  ∧ int_ok t ≤ float_ok t
  ∧ float_ok t ≤ length vs
  ∧ int_ok t + date_ok t ≤ length vs
  ∧ length vs ≤ SAMPLE_ROWS.
Proof.
  cbv zeta. set (vs := take SAMPLE_ROWS (non_null ser)).
  destruct (tally_loop_counts date_parser_parse vs) as (Hi & Hf & Hd & _).
  split_and!; [done..| | | |].
  - rewrite Hi, Hf. apply filter_length_impl. auto.
  - rewrite Hf, <- (length_fmap strip vs). apply length_filter.
  - rewrite Hi, Hd, <- (length_fmap strip vs), <- filter_or_length.
    + apply length_filter.
    + intros s Hs [Hs' _]. congruence.
  - unfold vs. rewrite length_take. lia.
Qed.

(** X6. Null and blank cells play no part in the classification: a column
    and its non-blank values are classified alike, and a column of null
    and blank cells only is 'string'. *)
Theorem infer_column_ignores_blanks (ser : list (option str)) :
  infer_column date_parser_parse ser
    = infer_column date_parser_parse (Some <$> non_null ser)
  ∧ (Forall (λ v, ∀ x, v = Some x → strip x = []) ser →
     infer_column date_parser_parse ser = TString).
Proof.
  split.
  - unfold infer_column. by rewrite non_null_Some by apply non_null_not_blank.
  - intros Hblank. unfold infer_column.
    assert (non_null ser = []) as ->; [|done].
    induction Hblank as [|v ser Hv _ IH]; [done|]. rewrite non_null_cons, IH.
    destruct v as [x|]; [|done]. by rewrite decide_True by by apply Hv.
Qed.

(** X7. Up to SAMPLE_ROWS non-blank values, a column whose values all pass
    the integer check is 'int', a column whose values all pass the integer
    check or the float parse is 'int' or 'float', and a column whose values
    all fail both and pass the date parse is 'date'. *)
Theorem infer_column_homogeneous (ser : list (option str)) :
  0 < length (non_null ser) ≤ SAMPLE_ROWS →
  (Forall (λ v, try_int (strip v) = true) (non_null ser) →
   infer_column date_parser_parse ser = TInt)
  ∧ (Forall (λ v, try_int (strip v) = true ∨ try_float (strip v) = true)
       (non_null ser) →
     infer_column date_parser_parse ser = TInt
     ∨ infer_column date_parser_parse ser = TFloat)
  ∧ (Forall (λ v, try_int (strip v) = false ∧ try_float (strip v) = false
                  ∧ date_parser_parse (strip v) = true) (non_null ser) →
     infer_column date_parser_parse ser = TDate).
Proof.
  intros Hlen. rewrite infer_column_unfold, decide_type_spec.
  rewrite (take_ge (non_null ser)) by lia.
  destruct (tally_loop_counts date_parser_parse (non_null ser)) as (Hi & Hf & Hd & _).
  rewrite Hi, Hf, Hd. clear Hi Hf Hd.
  pose proof (length_fmap strip (non_null ser)) as Hmap.
  split_and!; intros Hall.
  - rewrite filter_all, Hmap by by apply Forall_fmap.
    rewrite bool_decide_eq_true_2 by lia. done.
  - rewrite (filter_all (λ s, try_int s = true ∨ try_float s = true)), Hmap
      by by apply Forall_fmap.
    case_bool_decide; [by left|]. rewrite bool_decide_eq_true_2 by lia. by right.
  - rewrite (filter_none (λ s, try_int s = true)).
    2:{ apply Forall_fmap. eapply Forall_impl; [exact Hall|].
        intros v (Hv & _) Hv'. simpl in *. congruence. }
    rewrite (filter_none (λ s, try_int s = true ∨ try_float s = true)).
    2:{ apply Forall_fmap. eapply Forall_impl; [exact Hall|].
        intros v (Hv & Hv' & _) [?|?]; simpl in *; congruence. }
    rewrite filter_all, Hmap.
    2:{ apply Forall_fmap. eapply Forall_impl; [exact Hall|].
        intros v (Hv & _ & Hv'). simpl. done. }
    simpl. rewrite !bool_decide_eq_false_2 by lia.
    rewrite bool_decide_eq_true_2 by lia. done.
Qed.

(** X8. Since the tallies stop at SAMPLE_ROWS values and the ratios divide
    by the number of all non-blank values, a column with more than 1111
    non-blank values is never 'int' or 'float', and one with more than 1333
    is always 'string', whatever its values. *)
Theorem infer_column_beyond_cap (ser : list (option str)) :
  (1111 < length (non_null ser) →
   infer_column date_parser_parse ser ≠ TInt
   ∧ infer_column date_parser_parse ser ≠ TFloat)
  ∧ (1333 < length (non_null ser) →
     infer_column date_parser_parse ser = TString).
Proof.
  rewrite infer_column_unfold, decide_type_spec.
  destruct (tally_loop_le date_parser_parse (take SAMPLE_ROWS (non_null ser)))
    as (Hi & Hf & Hd).
  set (t := tally_loop date_parser_parse (take SAMPLE_ROWS (non_null ser))) in *.
  rewrite length_take in Hi, Hf, Hd. unfold SAMPLE_ROWS in Hi, Hf, Hd.
  split; intros Hlen.
  - rewrite !bool_decide_eq_false_2 by lia. by case_bool_decide.
  - by rewrite !bool_decide_eq_false_2 by lia.
Qed.

(** X9. For a sample with distinct column names the result maps each
    column name to the classification of that column, and has no other
    key. *)
Theorem infer_column_types_from_sample_lookup
    (df_sample : list (str * list (option str))) :
  NoDup (columns df_sample) →
  (∀ name ser, (name, ser) ∈ df_sample →
     infer_column_types_from_sample date_parser_parse df_sample !! name
     = Some (infer_column date_parser_parse ser))
  ∧ (∀ name, name ∉ columns df_sample →
     infer_column_types_from_sample date_parser_parse df_sample !! name = None).
Proof.
  intros Hnd. unfold infer_column_types_from_sample. split.
  - intros name ser Hin.
    by apply (foldl_insert_lookup (infer_column date_parser_parse)).
  - intros name Hname.
    destruct (foldl_insert_lookup (infer_column date_parser_parse)
                df_sample ∅ name Hnd) as [-> _]; done.
Qed.

End ClassifierProperties.

(** X6 on a column with a null and a blank cell. *)
Lemma infer_column_ignores_blanks_witness :
  Forall (λ v, ∀ x, v = Some x → @strip cpython x = []) [None; Some (py "  ")]
  ∧ @infer_column cpython example_date_parse [None; Some (py "  ")] = TString.
Proof.
  assert (Forall (λ v, ∀ x, v = Some x → @strip cpython x = [])
            [None; Some (py "  ")]) as Hb.
  { repeat constructor; intros x [= <-]; reflexivity. }
  split; [exact Hb|].
  exact (proj2 (@infer_column_ignores_blanks cpython example_date_parse _) Hb).
Defined.

(** X7 on three integers and a null. *)
Lemma infer_column_homogeneous_witness :
  0 < length (@non_null cpython [Some (py "1"); None; Some (py "22"); Some (py "-3")])
    ≤ SAMPLE_ROWS
  ∧ @infer_column cpython example_date_parse
      [Some (py "1"); None; Some (py "22"); Some (py "-3")] = TInt.
Proof.
  assert (0 < length (@non_null cpython
            [Some (py "1"); None; Some (py "22"); Some (py "-3")]) ≤ SAMPLE_ROWS)
    as Hlen by (vm_compute; lia).
  split; [exact Hlen|].
  apply (proj1 (@infer_column_homogeneous cpython example_date_parse _ Hlen)).
  by repeat constructor.
Defined.

(** X8 on 1334 dates. *)
Lemma infer_column_beyond_cap_witness :
  1333 < length (@non_null cpython (replicate 1334 (Some (py "2021-01-05"))))
  ∧ @infer_column cpython example_date_parse
      (replicate 1334 (Some (py "2021-01-05"))) = TString.
Proof.
  assert (1333 < length (@non_null cpython
            (replicate 1334 (Some (py "2021-01-05"))))) as Hlen
    by (apply Nat.ltb_lt; vm_compute; reflexivity).
  split; [exact Hlen|].
  exact (proj2 (@infer_column_beyond_cap cpython example_date_parse _) Hlen).
Defined.

(** X9 on a sample of two columns. *)
Lemma infer_column_types_from_sample_lookup_witness :
  @infer_column_types_from_sample cpython example_date_parse
    [(py "a", [Some (py "1")]); (py "b", [Some (py "x")])] !! py "b"
  = Some (@infer_column cpython example_date_parse [Some (py "x")]).
Proof.
  apply (@infer_column_types_from_sample_lookup cpython example_date_parse).
  - apply (bool_decide_unpack _). by vm_compute.
  - apply elem_of_cons. right. apply elem_of_cons. by left.
Defined.

(** ** Thousands separators *)

Lemma elem_of_lstrip_by p s c : c ∈ s → p c = false → c ∈ lstrip_by p s.
Proof.
  induction s as [|x s IH]; [done|]. intros Hc Hp. simpl.
  destruct (p x) eqn:Hx; [|done].
  apply elem_of_cons in Hc as [->|Hc]; [congruence | by apply IH].
Qed.

Lemma elem_of_strip_by p s c : c ∈ s → p c = false → c ∈ strip_by p s.
Proof.
  intros Hc Hp. unfold strip_by, rstrip_by.
  rewrite elem_of_reverse. apply elem_of_lstrip_by; [|done].
  rewrite elem_of_reverse. by apply elem_of_lstrip_by.
Qed.

Section ThousandsSeparators.
Context `{Python}.
Variable date_parser_parse : str → bool.

Lemma try_int_comma (s : str) : 44%N ∈ s → try_int s = false.
Proof.
  intros Hc. unfold try_int.
  assert (44%N ∈ lstrip_by (λ c, (c =? 43)%N || (c =? 45)%N) s) as Hl
    by by apply elem_of_lstrip_by.
  assert (str_isdigit (lstrip_by (λ c, (c =? 43)%N || (c =? 45)%N) s) = false)
    as ->; [|by rewrite andb_false_r].
  unfold str_isdigit. destruct (lstrip_by _ s) as [|x l] eqn:Hx; [done|].
  apply not_true_iff_false. intros Hall.
  rewrite forallb_forall in Hall. apply list_elem_of_In, Hall in Hl.
  by rewrite isdigit_ascii in Hl.
Qed.

(** X10. A column whose values all carry a comma is never 'int', since the
    integer check sees the value with its commas; if, up to SAMPLE_ROWS
    values, they all parse as floats once the commas are removed, the
    column is 'float'. *)
Theorem infer_column_thousands_separators (ser : list (option str)) :
  non_null ser ≠ [] →
  Forall (λ v, 44%N ∈ v) (non_null ser) →
  infer_column date_parser_parse ser ≠ TInt
  ∧ (length (non_null ser) ≤ SAMPLE_ROWS →
     Forall (λ v, try_float (strip v) = true) (non_null ser) →
     infer_column date_parser_parse ser = TFloat).
Proof.
  intros Hne Hcomma.
  assert (0 < length (non_null ser)) as Hpos
    by (destruct (non_null ser); [done | simpl; lia]).
  assert (∀ n, Forall (λ s, ¬ try_int s = true)
                 (strip <$> take n (non_null ser))) as Hnone.
  { intros n. apply Forall_fmap, Forall_take.
    eapply Forall_impl; [exact Hcomma|]. intros v Hv. simpl.
    rewrite try_int_comma; [done|]. apply elem_of_strip_by; [done|].
    by rewrite isspace_ascii. }
  rewrite infer_column_unfold, decide_type_spec.
  destruct (tally_loop_counts date_parser_parse (take SAMPLE_ROWS (non_null ser)))
    as (Hi & Hf & _).
  rewrite Hi, Hf, (filter_none (λ s, try_int s = true)) by apply Hnone.
  simpl. rewrite (bool_decide_eq_false_2 (0 < _ ∧ _ ≤ 0)) by lia.
  split; [by repeat case_bool_decide|].
  intros Hlen Hfloat. rewrite take_ge by lia.
  rewrite filter_all, length_fmap.
  - by rewrite bool_decide_eq_true_2 by lia.
  - apply Forall_fmap. eapply Forall_impl; [exact Hfloat|]. intros v Hv. by right.
Qed.

End ThousandsSeparators.

(** X10 on two amounts. *)
Lemma infer_column_thousands_separators_witness :
  @non_null cpython [Some (py "1,234"); Some (py "2,500.75")] ≠ []
  ∧ @infer_column cpython example_date_parse
      [Some (py "1,234"); Some (py "2,500.75")] = TFloat.
Proof.
  assert (@non_null cpython [Some (py "1,234"); Some (py "2,500.75")] ≠ []) as Hne
    by by vm_compute.
  split; [exact Hne|].
  apply (@infer_column_thousands_separators cpython example_date_parse _ Hne).
  - apply (bool_decide_unpack _). by vm_compute.
  - vm_compute. lia.
  - by repeat constructor.
Defined.

(** ** clean_csv *)

Section PipelineProperties.
Context `{Python} `{Polars}.
Variable date_parser_parse : str → bool.

(** X13. A run that reaches the write has as header the sanitized labels
    of the input, in the input's order and without repetition; all its
    columns were read as strings, and every column is cast, over all its
    rows, by the type inferred from that column's own first [sample_rows]
    cells. *)
Theorem clean_frame_columns (sample_rows : nat) (lf : frame series)
    (header : list str) (rows : list (list pcell)) :
  clean_frame date_parser_parse sample_rows lf = inr (header, rows) →
  header = map sanitize_column_name (columns lf)
  ∧ NoDup header
  ∧ Forall (λ c, series_dtype c.2 = Utf8) lf
  ∧ ∃ cols : list (list pcell),
      Forall2 (λ c col,
        cast_expr (infer_column date_parser_parse
                     (take sample_rows (series_cells c.2))) (series_cells c.2)
        = inr col) lf cols
      ∧ rows = unique (transpose cols).
Proof.
  intros (Hnd & Hall & -> & ->)%clean_frame_inr. split_and!; [done..| |].
  - eapply Forall_impl; [exact Hall|]. by intros c [? _].
  - exists (cast_table date_parser_parse sample_rows lf). split; [|done].
    unfold cast_table. apply Forall2_fmap_r, Forall_Forall2_diag.
    eapply Forall_impl; [exact Hall|]. intros c [_ Hfmt].
    by apply cast_expr_inr.
Qed.

(** X14. The run reaches the write exactly when no two labels sanitize to
    the same name, every column is read as strings, and the engine infers
    a datetime format for every column classified 'date'; two labels that
    differ only in case, or in their punctuation, therefore abort the run
    whatever the data. *)
Theorem clean_frame_succeeds_iff (sample_rows : nat) (lf : frame series) :
  (∃ out, clean_frame date_parser_parse sample_rows lf = inr out)
  ↔ NoDup (map sanitize_column_name (columns lf))
    ∧ Forall (λ c, series_dtype c.2 = Utf8
                   ∧ (infer_column date_parser_parse
                        (take sample_rows (series_cells c.2)) = TDate →
                      is_Some (infer_datetime_format (series_cells c.2)))) lf.
Proof.
  split.
  - intros [[header rows] (Hnd & Hall & _)%clean_frame_inr]. by split.
  - intros [Hnd Hall]. eexists (_, _). apply clean_frame_inr. by split_and!.
Qed.

(** X15. The shape of the output of a run on a table of [m] rows that
    casts no value to a NaN: one header name and one cell in every row for
    each input column, at most [m] rows, and at least one row if the input
    has one. *)
Theorem clean_frame_shape (sample_rows : nat) (lf : frame series)
    (header : list str) (rows : list (list pcell)) (m : nat) :
  clean_frame date_parser_parse sample_rows lf = inr (header, rows) →
  nan_free (transpose (cast_table date_parser_parse sample_rows lf)) →
  Forall (λ c, length (series_cells c.2) = m) lf →
  length header = length lf
  ∧ Forall (λ r, length r = length header) rows
  ∧ length rows ≤ m
  ∧ (lf ≠ [] → 0 < m → 0 < length rows).
Proof.
  intros (_ & _ & -> & ->)%clean_frame_inr Hnan Hm.
  set (cols := cast_table date_parser_parse sample_rows lf) in *.
  assert (length cols = length lf) as Hlen by apply length_map.
  assert (Forall (λ col, length col = m) cols) as Hcolsm.
  { apply Forall_fmap. eapply Forall_impl; [exact Hm|].
    intros c Hc. simpl. by rewrite length_map. }
  assert (length (map sanitize_column_name (columns lf)) = length lf) as Hhead
    by (unfold columns; by rewrite !length_map).
  assert (unique (transpose cols) ⊆+ transpose cols) as Hsub.
  { apply NoDup_submseteq; [by apply unique_NoDup|].
    intros r Hr. by apply (unique_elem_of _ _ Hnan). }
  apply submseteq_length in Hsub.
  split_and!; [done| | |].
  - rewrite Hhead, <- Hlen. apply Forall_forall. intros r Hr.
    apply (proj1 (unique_elem_of _ _ Hnan)) in Hr.
    pose proof (transpose_widths cols) as Hw. rewrite Forall_forall in Hw.
    by apply Hw.
  - destruct cols as [|col cols'] eqn:Hcols;
      [eapply Nat.le_trans; [exact Hsub | simpl; lia]|].
    eapply Nat.le_trans; [exact Hsub|]. apply Nat.eq_le_incl.
    by apply transpose_length.
  - intros Hne Hpos.
    assert (cols ≠ []) as Hcne by (intros Hc; rewrite Hc in Hlen; destruct lf; done).
    pose proof (transpose_length cols m Hcne Hcolsm) as Ht.
    destruct (transpose cols) as [|r rs] eqn:Hrs; [simpl in Ht; lia|].
    assert (r ∈ unique (r :: rs)) as Hr
      by (apply (unique_elem_of _ _ Hnan); by left).
    destruct (unique (r :: rs)); [by apply elem_of_nil in Hr | simpl; lia].
Qed.

(** What a run does to the file system: it fails before the write and
    leaves it as it was, or it cleans the table and writes. *)
Lemma clean_csv_cases (fs : filesystem) (input_path output_path : str)
    (sample_rows : nat) (fault : io_fault) :
  (∃ e, e ≠ OSError
        ∧ clean_csv date_parser_parse fs input_path output_path sample_rows fault
          = (inl e, fs))
  ∨ (∃ bytes lf header rows,
       fs !! input_path = Some bytes ∧ read_csv bytes = Some lf
       ∧ clean_frame date_parser_parse sample_rows lf = inr (header, rows)
       ∧ clean_csv date_parser_parse fs input_path output_path sample_rows fault
         = write_csv fs output_path (to_csv header rows) fault).
Proof.
  unfold clean_csv.
  destruct (fs !! input_path) as [bytes|] eqn:Hin;
    [|left; by exists FileNotFoundError].
  destruct (read_csv bytes) as [lf|] eqn:Hlf; [|left; by exists ComputeError].
  destruct (clean_frame _ _ lf) as [e|[header rows]] eqn:Hcf.
  - left. exists e. split; [|done]. intros ->.
    by apply clean_frame_not_OSError in Hcf.
  - right. by exists bytes, lf, header, rows.
Qed.

(** X19. A table in which the reader gives some column another dtype than
    Utf8 (a column of integers, of decimals or of booleans) is not
    cleaned, whatever the type inferred for the column: the run raises
    before the write and leaves the file system as it was, with the
    error of the [.str] namespace if the labels are sanitized to distinct
    names and the date columns read as strings have a format. *)
Theorem clean_csv_rejects_typed_column (fs : filesystem)
    (input_path output_path : str) (sample_rows : nat) (fault : io_fault)
    (bytes : list N) (lf : frame series) :
  fs !! input_path = Some bytes → read_csv bytes = Some lf →
  Exists (λ c, series_dtype c.2 ≠ Utf8) lf →
  ∃ e, clean_csv date_parser_parse fs input_path output_path sample_rows fault
       = (inl e, fs)
       ∧ (NoDup (map sanitize_column_name (columns lf)) →
          Forall (λ c, series_dtype c.2 = Utf8 →
                       sample_type date_parser_parse sample_rows c.2 = TDate →
                       is_Some (infer_datetime_format (series_cells c.2))) lf →
          e = SchemaError).
Proof.
  intros Hin Hlf Hex. unfold clean_csv. rewrite Hin, Hlf.
  destruct (clean_frame _ _ lf) as [e|[header rows]] eqn:Hcf.
  - exists e. split; [done|]. intros Hnd Hfmt.
    rewrite clean_frame_unfold, bool_decide_eq_true_2 in Hcf by done.
    destruct (collect _) as [e'|cols] eqn:Hc; simpl in Hcf; [|done].
    injection Hcf as ->.
    apply collect_map_inl in Hc as (c & Hc & Herr).
    destruct (decide (series_dtype c.2 = Utf8)) as [Hdt|Hdt].
    + rewrite Forall_forall in Hfmt.
      pose proof (cast_expr_inr _ _ (Hfmt c Hc Hdt)) as Hok.
      assert (cast_series (sample_type date_parser_parse sample_rows c.2) c.2
              = inr (map (cast_cell (sample_type date_parser_parse sample_rows c.2)
                            (infer_datetime_format (series_cells c.2)))
                       (series_cells c.2))) as Hok'
        by by apply cast_series_inr.
      congruence.
    + rewrite cast_series_not_Utf8 in Herr by done. congruence.
  - exfalso. apply clean_frame_inr in Hcf as (_ & Hall & _).
    apply Exists_exists in Hex as (c & Hc & Hdt).
    rewrite Forall_forall in Hall. by destruct (Hall c Hc).
Qed.

End PipelineProperties.

(** X13 on a table of names and amounts with thousands separators. *)
Lemma clean_frame_columns_witness :
  @clean_frame cpython (engine false) example_date_parse SAMPLE_ROWS
    [(py "First Name", Series Utf8 [Some (py "Alice"); Some (py "Bob")]);
     (py "Amount ", Series Utf8 [Some (py "1,234"); Some (py "2,500.75")])]
  = inr ([py "first_name"; py "amount"],
         [[CStr (py "Alice"); CFloat (py "1234.0")];
          [CStr (py "Bob"); CFloat (py "2500.75")]])
  ∧ [py "first_name"; py "amount"]
    = map (@sanitize_column_name cpython) [py "First Name"; py "Amount "].
Proof.
  assert (@clean_frame cpython (engine false) example_date_parse SAMPLE_ROWS
            [(py "First Name", Series Utf8 [Some (py "Alice"); Some (py "Bob")]);
             (py "Amount ", Series Utf8 [Some (py "1,234"); Some (py "2,500.75")])]
          = inr ([py "first_name"; py "amount"],
                 [[CStr (py "Alice"); CFloat (py "1234.0")];
                  [CStr (py "Bob"); CFloat (py "2500.75")]])) as Hc
    by by vm_compute.
  split; [exact Hc|].
  exact (proj1 (@clean_frame_columns cpython (engine false) example_date_parse
                  _ _ _ _ Hc)).
Defined.

(** X14 on two labels that differ in case and padding only. *)
Lemma clean_frame_succeeds_iff_witness :
  ¬ ∃ out, @clean_frame cpython (engine false) example_date_parse SAMPLE_ROWS
             [(py "Name", Series Utf8 [Some (py "a")]);
              (py " name", Series Utf8 [Some (py "b")])]
           = inr out.
Proof.
  intros Hex.
  apply (@clean_frame_succeeds_iff cpython (engine false) example_date_parse) in Hex
    as [Hnd _].
  apply (bool_decide_pack _) in Hnd. by vm_compute in Hnd.
Defined.

(** X15 on a table of two columns and three rows, two of them equal. *)
Lemma clean_frame_shape_witness :
  @clean_frame cpython (engine false) example_date_parse SAMPLE_ROWS
    [(py "a", Series Utf8 [Some (py "x"); Some (py "y"); Some (py "x")]);
     (py "b", Series Utf8 [Some (py "p"); Some (py "q"); Some (py "p")])]
  = inr ([py "a"; py "b"],
         [[CStr (py "x"); CStr (py "p")]; [CStr (py "y"); CStr (py "q")]])
  ∧ length ([[CStr (py "x"); CStr (py "p")]; [CStr (py "y"); CStr (py "q")]]
              : list (list eng_cell)) ≤ 3.
Proof.
  assert (@clean_frame cpython (engine false) example_date_parse SAMPLE_ROWS
            [(py "a", Series Utf8 [Some (py "x"); Some (py "y"); Some (py "x")]);
             (py "b", Series Utf8 [Some (py "p"); Some (py "q"); Some (py "p")])]
          = inr ([py "a"; py "b"],
                 [[CStr (py "x"); CStr (py "p")]; [CStr (py "y"); CStr (py "q")]]))
    as Hc by by vm_compute.
  split; [exact Hc|].
  apply (@clean_frame_shape cpython (engine false) example_date_parse _ _ _ _ 3 Hc).
  - apply Forall_forall; intros r _; apply Forall_forall; by intros [] _.
  - by repeat constructor.
Defined.

(** X19 on the example table with an empty age: its column of ages is read
    as Int64. *)
Lemma clean_csv_rejects_typed_column_witness :
  ∃ e, @clean_csv cpython (engine false) example_date_parse
         {[ py "in.csv" := example_csv_int ]} (py "in.csv") (py "out.csv")
         SAMPLE_ROWS NoFault
       = (inl e, {[ py "in.csv" := example_csv_int ]}).
Proof.
  destruct (@clean_csv_rejects_typed_column cpython (engine false)
              example_date_parse {[ py "in.csv" := example_csv_int ]}
              (py "in.csv") (py "out.csv") SAMPLE_ROWS NoFault example_csv_int
              (default [] (@read_csv (engine false) example_csv_int)))
    as (e & He & _).
  - by vm_compute.
  - by vm_compute.
  - apply (bool_decide_unpack _). by vm_compute.
  - by exists e.
Defined.

(** ** upload *)

Lemma upload_paths_differ (tmpdir candidate filename : str) :
  path_join (UPLOAD_DIR tmpdir) (candidate ++ py "_" ++ filename)
  ≠ path_join (CLEAN_DIR tmpdir) (py "cleaned_" ++ filename).
Proof.
  unfold path_join, UPLOAD_DIR, CLEAN_DIR, path_join. rewrite <- !app_assoc.
  intros Heq%app_inv_head. by vm_compute in Heq.
Qed.

Lemma drop_app_length_suffix {A} (l k : list A) :
  drop (length (l ++ k) - length k) (l ++ k) = k.
Proof.
  rewrite length_app. replace (length l + length k - length k) with (length l) by lia.
  by rewrite drop_app_length.
Qed.

Section UploadProperties.
Context `{Python} `{Polars}.
Variable date_parser_parse : str → bool.

(** X16. The handler of POST /upload, for a file name without a path
    separator (the name is joined to UPLOAD_DIR and CLEAN_DIR as it is). A
    name that ends, in lower case, in neither .csv nor .txt is answered 400
    and nothing is stored. Otherwise the upload is written under
    UPLOAD_DIR; if that write fails, its exception leaves the handler, with
    nothing stored if the file could not be opened and the part written so
    far in that file otherwise. If it completes, the upload is still
    there, unchanged, when the handler returns, whatever the outcome; no
    file but it and the one at CLEAN_DIR/cleaned_<filename> is touched; the
    answer is 500 or the file at CLEAN_DIR/cleaned_<filename>, and in the
    latter case that file holds what the write of the cleaned table of the
    uploaded bytes, read with the default SAMPLE_ROWS, has left there: all
    of it if the write completed, its beginning if the write stopped
    without raising. A 500 changes nothing but the stored upload, unless it
    is the answer to a write that stopped and raised, which leaves the
    beginning of the cleaned table at CLEAN_DIR/cleaned_<filename>. *)
Theorem upload_outcome (fs : filesystem) (tmpdir candidate filename : str)
    (contents : list N) (upload_fault : option py_fault) (fault : io_fault) :
  47%N ∉ filename →
  let accepted := endswith (lower filename) (py ".csv")
                  || endswith (lower filename) (py ".txt") in
  let tmp_in := path_join (UPLOAD_DIR tmpdir) (candidate ++ py "_" ++ filename) in
  let tmp_out := path_join (CLEAN_DIR tmpdir) (py "cleaned_" ++ filename) in
  let out := upload date_parser_parse fs tmpdir candidate filename contents
               upload_fault fault in
  (accepted = false → out = (HTTPException 400, fs))
  ∧ (accepted = true →
     (upload_fault = Some OpenFailed → out = (Unhandled OSError, fs))
     ∧ (∀ n, upload_fault = Some (WriteFailed n) →
          out = (Unhandled OSError, <[tmp_in := take n contents]> fs))
     ∧ (upload_fault = None →
        out.2 !! tmp_in = Some contents
        ∧ (∀ p, p ≠ tmp_in → p ≠ tmp_out → out.2 !! p = fs !! p)
        ∧ (out.1 = HTTPException 500 ∨ out.1 = FileResponse tmp_out)
        ∧ (out.1 = FileResponse tmp_out → ∃ lf header rows,
             read_csv contents = Some lf
             ∧ clean_frame date_parser_parse SAMPLE_ROWS lf = inr (header, rows)
             ∧ (fault = NoFault ∧ out.2 !! tmp_out = Some (to_csv header rows)
                ∨ ∃ n, fault = WriteFault n false
                       ∧ out.2 !! tmp_out = Some (take n (to_csv header rows))))
        ∧ (out.1 = HTTPException 500 →
           out.2 = <[tmp_in := contents]> fs
           ∨ ∃ lf header rows n,
               read_csv contents = Some lf
               ∧ clean_frame date_parser_parse SAMPLE_ROWS lf = inr (header, rows)
               ∧ fault = WriteFault n true
               ∧ out.2 = <[tmp_out := take n (to_csv header rows)]>
                           (<[tmp_in := contents]> fs)))).
Proof.
  intros _. cbv zeta. unfold upload.
  destruct (endswith (lower filename) (py ".csv")
            || endswith (lower filename) (py ".txt")); simpl; [|by split].
  split; [done|]. intros _.
  pose proof (upload_paths_differ tmpdir candidate filename) as Hne.
  set (tmp_in := path_join (UPLOAD_DIR tmpdir) (candidate ++ py "_" ++ filename)) in *.
  set (tmp_out := path_join (CLEAN_DIR tmpdir) (py "cleaned_" ++ filename)) in *.
  split; [by intros ->|]. split; [by intros n ->|]. intros ->.
  set (run := clean_csv date_parser_parse _ _ _ _ _).
  assert (<[tmp_in := contents]> fs !! tmp_in = Some contents) as Hstored
    by apply lookup_insert_eq.
  assert (∀ p, p ≠ tmp_in → <[tmp_in := contents]> fs !! p = fs !! p) as Hothers.
  { intros p Hp. apply lookup_insert_ne. intros Heq. apply Hp. symmetry. exact Heq. }
  destruct (clean_csv_cases date_parser_parse (<[tmp_in := contents]> fs)
              tmp_in tmp_out SAMPLE_ROWS fault)
    as [(e & He & Hrun)|(bytes & lf & header & rows & Hin & Hlf & Hcf & Hrun)];
    [assert (run = (inl e, <[tmp_in := contents]> fs)) as -> by exact Hrun
    |assert (run = write_csv (<[tmp_in := contents]> fs) tmp_out
                     (to_csv header rows) fault) as -> by exact Hrun];
    clear Hrun.
  - simpl. split_and!; [exact Hstored | by intros p Hp _; apply Hothers | by left
                       | done | by left].
  - assert (Some contents = Some bytes) as [= <-]
      by (rewrite <- Hin; symmetry; exact Hstored).
    assert (∀ data, <[tmp_out := data]> (<[tmp_in := contents]> fs) !! tmp_in
                    = Some contents) as Hkept.
    { intros data.
      etrans; [apply lookup_insert_ne; intros Heq; apply Hne; symmetry; exact Heq|].
      exact Hstored. }
    assert (∀ data p, p ≠ tmp_in → p ≠ tmp_out →
              <[tmp_out := data]> (<[tmp_in := contents]> fs) !! p = fs !! p)
      as Hframe.
    { intros data p Hp1 Hp2.
      etrans; [apply lookup_insert_ne; intros Heq; apply Hp2; symmetry; exact Heq|].
      by apply Hothers. }
    unfold write_csv. destruct fault as [| |n []]; simpl.
    + split_and!; [apply Hkept | apply Hframe | by right | | done].
      intros _. exists lf, header, rows. split_and!; [done..|].
      left. split; [done | apply lookup_insert_eq].
    + split_and!; [exact Hstored | by intros p Hp _; apply Hothers | by left
                  | done | by left].
    + split_and!; [apply Hkept | apply Hframe | by left | done |].
      intros _. right. by exists lf, header, rows, n.
    + split_and!; [apply Hkept | apply Hframe | by right | | done].
      intros _. exists lf, header, rows. split_and!; [done..|].
      right. exists n. split; [done | apply lookup_insert_eq].
Qed.

(** X17. For an ASCII file name the handler goes on to store and clean
    the upload exactly when the name ends in a four-character extension
    that is .csv or .txt in any letter case: DATA.CSV passes, data.csv.bak
    and data.tsv do not. The contents play no part in the check. *)
Theorem upload_accepts_extension (fs : filesystem) (tmpdir candidate filename : str)
    (contents : list N) (upload_fault : option py_fault) (fault : io_fault) :
  Forall (λ c, (c < 128)%N) filename →
  (upload date_parser_parse fs tmpdir candidate filename contents
     upload_fault fault).1 ≠ HTTPException 400
  ↔ ∃ base ext, filename = base ++ ext
      ∧ (map ascii_lower ext = py ".csv" ∨ map ascii_lower ext = py ".txt").
Proof.
  intros Hascii.
  assert (∀ suffix, endswith (lower filename) suffix = true
            ↔ ∃ base ext, filename = base ++ ext ∧ map ascii_lower ext = suffix)
    as Hends.
  { intros suffix. unfold endswith. rewrite bool_decide_eq_true, lower_ascii by done.
    split.
    - intros Hdrop.
      exists (take (length filename - length suffix) filename),
             (drop (length filename - length suffix) filename).
      split; [by rewrite take_drop|].
      rewrite length_map, skipn_map in Hdrop. exact Hdrop.
    - intros (base & ext & -> & <-).
      rewrite map_app. apply drop_app_length_suffix. }
  unfold upload.
  destruct (endswith (lower filename) (py ".csv")) eqn:Hcsv; simpl.
  - split.
    + intros _. apply Hends in Hcsv as (base & ext & ? & ?). exists base, ext. auto.
    + intros _. destruct upload_fault as [[|n]|]; [done..|].
      by destruct (clean_csv _ _ _ _ _ _) as [[?|?] ?].
  - destruct (endswith (lower filename) (py ".txt")) eqn:Htxt; simpl.
    + split.
      * intros _. apply Hends in Htxt as (base & ext & ? & ?). exists base, ext. auto.
      * intros _. destruct upload_fault as [[|n]|]; [done..|].
        by destruct (clean_csv _ _ _ _ _ _) as [[?|?] ?].
    + split; [done|]. intros (base & ext & Hf & [Hext|Hext]).
      * apply not_true_iff_false in Hcsv. destruct Hcsv. apply Hends. eauto.
      * apply not_true_iff_false in Htxt. destruct Htxt. apply Hends. eauto.
Qed.

End UploadProperties.

(** X16 on the example table, uploaded under a name in capitals. *)
Lemma upload_outcome_witness :
  (47%N ∉ py "Data.CSV")
  ∧ (@upload cpython (engine false) example_date_parse example_fs
       (py "/tmp") (py "k3x9") (py "Data.CSV") example_csv None NoFault).1
    = FileResponse (py "/tmp/polars_cleaned/cleaned_Data.CSV")
  ∧ (@upload cpython (engine false) example_date_parse example_fs
       (py "/tmp") (py "k3x9") (py "Data.CSV") example_csv None NoFault).2
      !! py "/tmp/polars_uploads/k3x9_Data.CSV" = Some example_csv.
Proof.
  assert (47%N ∉ py "Data.CSV") as Hsep
    by (apply (bool_decide_unpack _); by vm_compute).
  split; [exact Hsep|]. split; [by vm_compute|].
  exact (proj1 (proj2 (proj2 (proj2 (@upload_outcome cpython (engine false)
                                       example_date_parse example_fs (py "/tmp")
                                       (py "k3x9") (py "Data.CSV") example_csv
                                       None NoFault Hsep) eq_refl)) eq_refl)).
Defined.

(** X17 on a name in capitals. *)
Lemma upload_accepts_extension_witness :
  Forall (λ c, (c < 128)%N) (py "DATA.CSV")
  ∧ (@upload cpython (engine false) example_date_parse ∅
       (py "/tmp") (py "k3x9") (py "DATA.CSV") example_csv None NoFault).1
    ≠ HTTPException 400.
Proof.
  assert (Forall (λ c, (c < 128)%N) (py "DATA.CSV")) as Hascii
    by by repeat constructor.
  split; [exact Hascii|].
  apply (@upload_accepts_extension cpython (engine false) example_date_parse
           ∅ (py "/tmp") (py "k3x9") (py "DATA.CSV") example_csv None NoFault Hascii).
  exists (py "DATA"), (py ".CSV"). split; [reflexivity | by left].
Defined.

(** ** The sample of clean_csv *)

Section SampleProperties.
Context `{Python}.
Variable date_parser_parse : str → bool.

Lemma non_null_length (ser : list (option str)) :
  length (non_null ser) ≤ length ser.
Proof.
  induction ser as [|v ser IH]; [done|]. rewrite non_null_cons.
  destruct v as [x|]; [case_decide|]; simpl; lia.
Qed.

(** X18. On the sample [clean_csv] takes, the first [sample_rows] cells of
    a column with [sample_rows] at most SAMPLE_ROWS (its default), the loop
    examines every non-blank value, so the three ratios are taken over the
    values examined: a sample whose non-blank values all pass the integer
    check is 'int', however long the column. *)
Theorem infer_column_sample_within_cap (sample_rows : nat)
    (col : list (option str)) :
  sample_rows ≤ SAMPLE_ROWS →
  let vs := non_null (take sample_rows col) in
  infer_column date_parser_parse (take sample_rows col)
    = decide_type (tally_loop date_parser_parse vs) (length vs)
  ∧ (vs ≠ [] → Forall (λ v, try_int (strip v) = true) vs →
     infer_column date_parser_parse (take sample_rows col) = TInt).
Proof.
  intros Hn. cbv zeta.
  pose proof (non_null_length (take sample_rows col)) as Hlen.
  rewrite length_take in Hlen.
  assert (infer_column date_parser_parse (take sample_rows col)
          = decide_type (tally_loop date_parser_parse
                           (non_null (take sample_rows col)))
              (length (non_null (take sample_rows col)))) as Heq.
  { rewrite infer_column_unfold. by rewrite take_ge by lia. }
  split; [exact Heq|]. intros Hne Hall. rewrite Heq, decide_type_spec.
  destruct (tally_loop_counts date_parser_parse (non_null (take sample_rows col)))
    as (-> & _).
  rewrite filter_all, length_fmap by by apply Forall_fmap.
  assert (0 < length (non_null (take sample_rows col)))
    by (destruct (non_null (take sample_rows col)); [done | simpl; lia]).
  by rewrite bool_decide_eq_true_2 by lia.
Qed.

End SampleProperties.

(** X18 on a sample of two cells of a column of three. *)
Lemma infer_column_sample_within_cap_witness :
  2 ≤ SAMPLE_ROWS
  ∧ @infer_column cpython example_date_parse
      (take 2 [Some (py "1"); Some (py "2"); Some (py "x")]) = TInt.
Proof.
  assert (2 ≤ SAMPLE_ROWS) as Hn by (unfold SAMPLE_ROWS; lia).
  split; [exact Hn|].
  apply (proj2 (@infer_column_sample_within_cap cpython example_date_parse 2
                  [Some (py "1"); Some (py "2"); Some (py "x")] Hn)).
  - by vm_compute.
  - by repeat constructor.
Defined.
